(** * rtmpauthd, controllers/twitch.go: the Twitch access-token cache and
      the live-stream query

    A shallow embedding of [controllers/twitch.go].  The Go methods on
    [*Controller] become computations in a small monad [Go] that threads
    the controller, the sequence of calls made to the outside (bbolt
    transactions, HTTP requests, the OAuth2 grant, the publisher registry)
    and the log lines, and that can end in a panic.  What the outside
    answers (the identity provider, the Helix API, a failing disk) is read
    from an environment [Env]. *)

From Stdlib Require Import String Ascii List ZArith NArith Bool Lia.
From stdpp Require Import base option gmap strings list.

Local Open Scope string_scope.
Local Open Scope list_scope.
Local Open Scope Z_scope.

(** ** Go values *)

(** A Go [error] is nil or a value.  [errorString] is what [errors.New]
    builds; [foreignError] stands for the errors handed back by the
    packages this file calls (bbolt, net/http, net/url, oauth2,
    encoding/json, the publisher registry). *)
Inductive error_value : Type :=
| errorString (s : string)
| foreignError (pkg : string) (s : string).

Abbreviation error := (option error_value).
Abbreviation nil_error := (@None error_value).

Definition errors_New (s : string) : error := Some (errorString s).

Definition Error_ (e : error_value) : string :=
  match e with
  | errorString s => s
  | foreignError pkg s => pkg +:+ ": " +:+ s
  end.

Global Instance error_value_eq_dec : EqDecision error_value.
Proof. solve_decision. Defined.

(** A [[]byte] that may be nil. *)
Abbreviation bytes := (option string).

Definition len (b : bytes) : nat :=
  match b with
  | None => 0%nat
  | Some s => String.length s
  end.

Definition string_of_bytes (b : bytes) : string := default "" b.

(** ** The data of twitch.go *)

Definition defaultClientID : string := "abcd1234".
Definition defaultClientSecret : string := "abcd1234".

Record StreamData : Type := {
  ID : string;
  UserID : string;
  UserName : string;
  GameID : string;
  Type_ : string;
  Title : string;
  ViewerCount : Z;
  StartedAt : string
}.

Record TwitchStreamsResponse : Type := {
  Data : list StreamData
}.

(** Modelled from the spec: the [Config] struct of the controller is
    declared outside twitch.go; of its fields the file reads
    [TwitchClientID] and [TwitchClientSecret], both strings. *)
Record Configuration : Type := {
  TwitchClientID : string;
  TwitchClientSecret : string
}.

(** Modelled from the spec: the [Publisher] struct is declared outside
    twitch.go; [getStreams] reads its fields [Name] and [TwitchStream],
    both strings. *)
Record Publisher : Type := {
  Name : string;
  TwitchStream : string
}.

(** Modelled from the spec: the [Controller] struct is declared outside
    twitch.go.  [DB] is the bbolt database; the model keeps of it the
    contents of the bucket "ConfigBucket", the only bucket twitch.go opens
    (byte-string keys to byte-string values).  The bucket is taken to
    exist: without it [tx.Bucket] returns nil and the calls on it panic, a
    case outside this model. *)
Record Controller : Type := {
  Config : Configuration;
  DB : gmap string string
}.

(** ** Requests and responses *)

Record Request : Type := {
  Method : string;
  URL : string;
  Header : gmap string string
}.

Record Response : Type := {
  StatusCode : Z;
  Body : string
}.

(** [clientcredentials.Config] as [getNewAuthToken] fills it. *)
Record ClientCredentialsConfig : Type := {
  ClientID : string;
  ClientSecret : string;
  TokenURL : string
}.

Record Token : Type := {
  AccessToken : string
}.

Definition twitch_Endpoint_TokenURL : string := "https://id.twitch.tv/oauth2/token".

Inductive answer (A : Type) : Type :=
| Answer (a : A)
| Failure (e : error_value).
Arguments Answer {A} a.
Arguments Failure {A} e.

(** ** The environment

    Everything the outside decides.  [bolt_begin] and [bolt_commit] are the
    errors with which a read-write transaction fails to start (database
    opened read-only) or to commit (disk error); [bolt_Put] the error of
    [Bucket.Put] for a key and a value; nil when the step succeeds. *)
Record Env : Type := {
  bolt_begin : error;
  bolt_Put : string → string → error;
  bolt_commit : error;
  http_Do : Request → answer Response;
  oauth2_Token : ClientCredentialsConfig → answer Token;
  json_Decode : string → answer TwitchStreamsResponse;
  registry : list Publisher * error
}.

(** ** The state threaded through a call *)

Inductive Call : Type :=
| CallView
| CallUpdate
| CallHTTP (r : Request)
| CallToken (cfg : ClientCredentialsConfig)
| CallGetAllPublisher.

Inductive Level : Type := DebugLevel | ErrorLevel.

Record State : Type := {
  c : Controller;
  calls : list Call;
  logs : list (Level * string)
}.

Definition set_DB (db : gmap string string) (s : State) : State :=
  {| c := {| Config := Config (c s); DB := db |};
     calls := calls s; logs := logs s |}.

Definition add_call (k : Call) (s : State) : State :=
  {| c := c s; calls := calls s ++ [k]; logs := logs s |}.

Definition add_log (l : Level) (msg : string) (s : State) : State :=
  {| c := c s; calls := calls s; logs := logs s ++ [(l, msg)] |}.

(** ** The monad *)

Inductive Outcome (A : Type) : Type :=
| Returns (a : A)
| Panics (reason : string).
Arguments Returns {A} a.
Arguments Panics {A} reason.

Definition Go (A : Type) : Type := State → Outcome A * State.

Definition ret {A} (a : A) : Go A := λ s, (Returns a, s).

Definition bind {A B} (m : Go A) (k : A → Go B) : Go B :=
  λ s, match m s with
       | (Returns a, s') => k a s'
       | (Panics r, s') => (Panics r, s')
       end.

Definition panic {A} (reason : string) : Go A := λ s, (Panics reason, s).
Definition get : Go State := λ s, (Returns s, s).
Definition modify (f : State → State) : Go unit := λ s, (Returns tt, f s).

Global Instance Go_ret : MRet Go := @ret.
Global Instance Go_bind : MBind Go := λ A B k m, bind m k.

Definition nilDeref : string :=
  "runtime error: invalid memory address or nil pointer dereference".

(** ** logrus *)

Definition log_Debug (msg : string) : Go unit := modify (add_log DebugLevel msg).
Definition log_Error (e : error_value) : Go unit :=
  modify (add_log ErrorLevel (Error_ e)).

(** ** bbolt

    A transaction sees the bucket as a map.  The Go closures passed to
    [View] and [Update] assign variables of the enclosing function: here a
    closure takes the bucket and returns the assigned value, the bucket it
    leaves and its error. *)

Definition Bucket_Get (b : gmap string string) (key : string) : bytes := b !! key.

Definition Bucket_Put (E : Env) (b : gmap string string) (key value : string)
  : gmap string string * error :=
  match bolt_Put E key value with
  | Some e => (b, Some e)
  | None => (<[key := value]> b, None)
  end.

(** [DB.View]: the closure runs on the current contents; a read-only
    transaction changes nothing.  The database is taken to be open, so the
    transaction always starts and [View] returns the closure's error. *)
Definition DB_View {A} (fn : gmap string string → A * error) : Go (A * error) :=
  modify (add_call CallView) ;;
  s ← get ;
  mret (fn (DB (c s))).

(** [DB.Update]: when the transaction cannot start the closure does not run
    and the assigned variable keeps its value [a0]; when the closure or the
    commit fails the transaction is rolled back. *)
Definition DB_Update {A} (E : Env) (a0 : A)
    (fn : gmap string string → A * gmap string string * error) : Go (A * error) :=
  modify (add_call CallUpdate) ;;
  match bolt_begin E with
  | Some e => mret (a0, Some e)
  | None =>
      s ← get ;
      let '(a, b', err) := fn (DB (c s)) in
      match err with
      | Some e => mret (a, Some e)
      | None =>
          match bolt_commit E with
          | Some e => mret (a, Some e)
          | None => modify (set_DB b') ;; mret (a, nil_error)
          end
      end
  end.

(** ** The token cache (twitch.go, lines 38-65) *)

Definition errTokenNotFound : error :=
  errors_New "cached twitch access token not found in db".

Definition errNoToken : error :=
  errors_New "updateCachedAccessToken: no token provided".

(** The closure of lines 42-46; it assigns [tokenBytes] and returns nil.
    [b := tx.Bucket(...)] is the bucket of the model: the bucket is taken
    to exist (see [Controller]), so the nil bucket on which [b.Get] would
    panic is outside the model and no statement below speaks of it. *)
Definition get_token (b : gmap string string) : bytes * error :=
  let tokenBytes := Bucket_Get b "twitchAccessToken" in
  (tokenBytes, nil_error).

Definition getCachedAccessToken : Go (string * error) :=
  '(tokenBytes, _) ← DB_View get_token ;
  if (len tokenBytes <? 1)%nat then mret ("", errTokenNotFound)
  else mret (string_of_bytes tokenBytes, nil_error).

(** The closure of lines 59-63; it assigns the [err] of the enclosing
    function and returns it.  As in [get_token], [tx.Bucket] is taken to
    find the bucket. *)
Definition put_token (E : Env) (accessToken : string) (b : gmap string string)
  : error * gmap string string * error :=
  let '(b', err) := Bucket_Put E b "twitchAccessToken" accessToken in
  (err, b', err).

Definition updateCachedAccessToken (E : Env) (accessToken : string) : Go error :=
  let err := nil_error in
  if decide (accessToken = "") then mret errNoToken
  else
    '(err, _) ← DB_Update E err (put_token E accessToken) ;
    mret nil_error.

(** ** net/url and net/http

    [http.NewRequest "GET" url nil] fails only when [url.Parse] rejects the
    URL.  Both URLs built in twitch.go start with a fixed, well-formed
    scheme, host and path, the second one followed by "?" and the query, so
    of the checks of [url.Parse] two can fail: a control byte before the
    first "#", and a "%" in the fragment (what follows the first "#") that
    is not followed by two hexadecimal digits. *)

Definition isCTL (a : ascii) : bool :=
  let n := N_of_ascii a in ((n <? 32) || (n =? 127))%N.

Fixpoint stringContainsCTLByte (s : string) : bool :=
  match s with
  | EmptyString => false
  | String a rest => isCTL a || stringContainsCTLByte rest
  end.

(** [strings.Cut(s, "#")] *)
Fixpoint cut_fragment (s : string) : string * string :=
  match s with
  | EmptyString => (EmptyString, EmptyString)
  | String a rest =>
      if Ascii.eqb a "#" then (EmptyString, rest)
      else let '(u, frag) := cut_fragment rest in (String a u, frag)
  end.

Definition ishex (a : ascii) : bool :=
  let n := N_of_ascii a in
  (((48 <=? n) && (n <=? 57)) || ((97 <=? n) && (n <=? 102))
   || ((65 <=? n) && (n <=? 70)))%N.

Fixpoint fragment_escapes_ok (s : string) : bool :=
  match s with
  | EmptyString => true
  | String a rest =>
      if Ascii.eqb a "%" then
        match rest with
        | String h1 (String h2 rest') =>
            ishex h1 && ishex h2 && fragment_escapes_ok rest'
        | _ => false
        end
      else fragment_escapes_ok rest
  end.

Definition url_Parse (rawURL : string) : error :=
  let '(u, frag) := cut_fragment rawURL in
  if stringContainsCTLByte u then
    Some (foreignError "net/url" "invalid control character in URL")
  else if fragment_escapes_ok frag then nil_error
  else Some (foreignError "net/url" "invalid URL escape").

(** The request pointer is nil when the error is not. *)
Definition http_NewRequest (method url : string) : option Request * error :=
  match url_Parse url with
  | Some e => (None, Some e)
  | None => (Some {| Method := method; URL := url; Header := ∅ |}, nil_error)
  end.

(** [r.Header.Set(key, value)] through the pointer [r].  Header names are
    kept as twitch.go writes them. *)
Definition Header_Set (r : option Request) (key value : string) : Go (option Request) :=
  match r with
  | None => panic nilDeref
  | Some r =>
      mret (Some {| Method := Method r; URL := URL r;
                    Header := <[key := value]> (Header r) |})
  end.

(** [http.DefaultClient.Do(r)] *)
Definition DefaultClient_Do (E : Env) (r : option Request) : Go (answer Response) :=
  match r with
  | None => panic nilDeref
  | Some r => modify (add_call (CallHTTP r)) ;; mret (http_Do E r)
  end.

(** [oauth2Config.Token(context.Background())] *)
Definition Config_Token (E : Env) (cfg : ClientCredentialsConfig) : Go (answer Token) :=
  modify (add_call (CallToken cfg)) ;; mret (oauth2_Token E cfg).

(** ** Validation and refresh (twitch.go, lines 67-147) *)

Definition errStatusNot200 : error :=
  errors_New "token validation response status code != 200".

Definition log_if_error (err : error) : Go unit :=
  match err with
  | Some e => log_Error e
  | None => mret tt
  end.

Definition validateAccessToken (E : Env) (accessToken : string) : Go error :=
  let '(r, err) := http_NewRequest "GET" "https://id.twitch.tv/oauth2/validate" in
  log_if_error err ;;
  r ← Header_Set r "Content-Type" "application/json" ;
  r ← Header_Set r "Authorization" ("OAuth " +:+ accessToken) ;
  resp ← DefaultClient_Do E r ;
  match resp with
  | Failure e => mret (Some e)
  | Answer resp =>
      if decide (StatusCode resp ≠ 200) then mret errStatusNot200
      else mret nil_error
  end.

Definition getNewAuthToken (E : Env) : Go error :=
  s ← get ;
  let oauth2Config :=
    {| ClientID := TwitchClientID (Config (c s));
       ClientSecret := TwitchClientSecret (Config (c s));
       TokenURL := twitch_Endpoint_TokenURL |} in
  token ← Config_Token E oauth2Config ;
  match token with
  | Failure e => mret (Some e)
  | Answer token =>
      log_Debug ("New Access Token: " +:+ AccessToken token) ;;
      err ← updateCachedAccessToken E (AccessToken token) ;
      match err with
      | Some e => mret (Some e)
      | None => mret nil_error
      end
  end.

Definition errDefaultClientID : error :=
  errors_New "Default twitch client id value detected. Skipping twitch call".

Definition errDefaultClientSecret : error :=
  errors_New "Default twitch client secret value detected. Skipping twitch call".

Definition validateClientCredentials : Go error :=
  s ← get ;
  if decide (TwitchClientID (Config (c s)) = defaultClientID) then
    mret errDefaultClientID
  else if decide (TwitchClientSecret (Config (c s)) = defaultClientSecret) then
    mret errDefaultClientSecret
  else mret nil_error.

Definition twitchAuthToken (E : Env) : Go (string * error) :=
  (* lines 141-146, reached on both paths below *)
  let reread : Go (string * error) :=
    '(token, err) ← getCachedAccessToken ;
    match err with
    | Some e => mret ("", Some e)
    | None => mret (token, nil_error)
    end in
  '(token, err) ← getCachedAccessToken ;
  match err with
  | Some e => mret ("", Some e)
  | None =>
      err ← validateAccessToken E token ;
      match err with
      | Some _ =>
          err ← getNewAuthToken E ;
          match err with
          | Some e => mret ("", Some e)
          | None => reread
          end
      | None => reread
      end
  end.

(** ** The stream query (twitch.go, lines 149-209) *)

(** [c.getAllPublisher()] is defined outside twitch.go; its result is the
    environment's. *)
Definition getAllPublisher (E : Env) : Go (list Publisher * error) :=
  modify (add_call CallGetAllPublisher) ;; mret (registry E).

(** One iteration of the loop of lines 169-177 on [publishers[i]]. *)
Definition userQuery_step (userQuery : string) (p : Publisher) : string :=
  if decide (TwitchStream p = "") then userQuery
  else
    let userQuery :=
      if decide (userQuery ≠ "") then userQuery +:+ "&" else userQuery in
    userQuery +:+ ("user_login=" +:+ Name p).

Definition userQuery_loop (publishers : list Publisher) : string :=
  fold_left userQuery_step publishers "".

Fixpoint for_range {A} (l : list A) (body : A → Go unit) : Go unit :=
  match l with
  | [] => mret tt
  | x :: l' => body x ;; for_range l' body
  end.

Definition getStreams (E : Env) : Go (list StreamData * error) :=
  err ← validateClientCredentials ;
  match err with
  | Some e => mret ([], Some e)
  | None =>
  '(accessToken, err) ← twitchAuthToken E ;
  match err with
  | Some e => mret ([], Some e)
  | None =>
  '(publishers, err) ← getAllPublisher E ;
  match err with
  | Some e => mret ([], Some e)
  | None =>
  let userQuery := userQuery_loop publishers in
  let userStreamURL := "https://api.twitch.tv/helix/streams/?" +:+ userQuery in
  let '(r, err) := http_NewRequest "GET" userStreamURL in
  log_if_error err ;;
  s ← get ;
  r ← Header_Set r "Content-Type" "application/json" ;
  r ← Header_Set r "client-id" (TwitchClientID (Config (c s))) ;
  r ← Header_Set r "Authorization" ("Bearer " +:+ accessToken) ;
  resp ← DefaultClient_Do E r ;
  match resp with
  | Failure e => mret ([], Some e)
  | Answer resp =>
      match json_Decode E (Body resp) with
      | Failure e => mret ([], Some e)
      | Answer streamResponse =>
          (if decide (length (Data streamResponse) = 0%nat)
           then log_Debug "no twitch streams currently live" else mret tt) ;;
          for_range (Data streamResponse)
            (λ d, log_Debug ("Live Now:" +:+ UserName d)) ;;
          mret (Data streamResponse, nil_error)
      end
  end
  end end end.

(** * Properties *)

(** ** Vocabulary of the statements *)

Definition tokenKey : string := "twitchAccessToken".

(** The token a state's cache holds, nil when the key is absent. *)
Definition cached (s : State) : bytes := DB (c s) !! tokenKey.

(** The error with which the write transaction of [value] under the token
    key ends: at its start, in [Put], or at its commit; nil when it
    commits. *)
Definition write_error (E : Env) (value : string) : error :=
  match bolt_begin E with
  | Some e => Some e
  | None =>
      match bolt_Put E tokenKey value with
      | Some e => Some e
      | None => bolt_commit E
      end
  end.

(** The write transaction of [value] commits. *)
Definition write_commits (E : Env) (value : string) : Prop :=
  write_error E value = None.

(** The bucket after the write transaction of [value]. *)
Definition store_after (E : Env) (value : string) (db : gmap string string)
  : gmap string string :=
  match write_error E value with
  | Some _ => db
  | None => <[tokenKey := value]> db
  end.

(** The invariant of the data model: the stored token is absent or
    non-empty. *)
Definition token_inv (s : State) : Prop := cached s ≠ Some "".

(** What a run may do to the stored token: leave it, or store a non-empty
    one. *)
Definition stores_nonempty (s s' : State) : Prop :=
  cached s' = cached s ∨ ∃ t, t ≠ "" ∧ cached s' = Some t.

(** The request [validateAccessToken] sends for a token. *)
Definition validate_request (accessToken : string) : Request :=
  {| Method := "GET";
     URL := "https://id.twitch.tv/oauth2/validate";
     Header := <["Authorization" := "OAuth " +:+ accessToken]>
                 (<["Content-Type" := "application/json"]> ∅) |}.

(** The verdict of the identity provider on a token, as
    [validateAccessToken] reads it: nil when the token is valid. *)
Definition validation_result (E : Env) (accessToken : string) : error :=
  match http_Do E (validate_request accessToken) with
  | Failure e => Some e
  | Answer resp =>
      if decide (StatusCode resp ≠ 200) then errStatusNot200 else nil_error
  end.

(** The client-credentials configuration [getNewAuthToken] builds. *)
Definition grant_config (s : State) : ClientCredentialsConfig :=
  {| ClientID := TwitchClientID (Config (c s));
     ClientSecret := TwitchClientSecret (Config (c s));
     TokenURL := twitch_Endpoint_TokenURL |}.

(** The error a refresh returns and the state it leaves, by the answer of
    the grant. *)
Definition refresh_error (E : Env) (s : State) : error :=
  match oauth2_Token E (grant_config s) with
  | Failure e => Some e
  | Answer token =>
      if decide (AccessToken token = "") then errNoToken else nil_error
  end.

Definition refresh_state (E : Env) (s : State) : State :=
  let s1 := add_call (CallToken (grant_config s)) s in
  match oauth2_Token E (grant_config s) with
  | Failure _ => s1
  | Answer token =>
      let s2 := add_log DebugLevel ("New Access Token: " +:+ AccessToken token) s1 in
      if decide (AccessToken token = "") then s2
      else set_DB (store_after E (AccessToken token) (DB (c s)))
                  (add_call CallUpdate s2)
  end.

Definition is_refresh (k : Call) : bool :=
  match k with
  | CallToken _ => true
  | _ => false
  end.

(** The number of client-credentials grants among some calls. *)
Fixpoint refresh_count (ks : list Call) : nat :=
  match ks with
  | [] => 0
  | k :: ks' => (if is_refresh k then 1 else 0) + refresh_count ks'
  end.

(** The query string as the specification words it: the terms
    [user_login=<Name>] of the publishers whose [TwitchStream] is not
    empty, in list order, joined by "&". *)
Definition query_terms (publishers : list Publisher) : list string :=
  map (λ p, "user_login=" +:+ Name p)
      (filter (λ p, TwitchStream p ≠ "") publishers).

Definition userQuery_spec (publishers : list Publisher) : string :=
  String.concat "&" (query_terms publishers).

(** The request [getStreams] sends for a query string. *)
Definition streams_request (s : State) (accessToken userQuery : string) : Request :=
  {| Method := "GET";
     URL := "https://api.twitch.tv/helix/streams/?" +:+ userQuery;
     Header := <["Authorization" := "Bearer " +:+ accessToken]>
                 (<["client-id" := TwitchClientID (Config (c s))]>
                    (<["Content-Type" := "application/json"]> ∅)) |}.

(** ** Sample environments and states *)

Definition diskFull : error_value := foreignError "bbolt" "write error: no space left on device".

(** An identity provider that answers every validation with [status] and
    every grant with the token "tok2", a store whose commits end with
    [fault], a registry holding [publishers] and a Helix API that answers
    with an empty list. *)
Definition sample_env (status : Z) (fault : error) (publishers : list Publisher) : Env :=
  {| bolt_begin := nil_error;
     bolt_Put := λ _ _, nil_error;
     bolt_commit := fault;
     http_Do := λ _, Answer {| StatusCode := status; Body := "{}" |};
     oauth2_Token := λ _, Answer {| AccessToken := "tok2" |};
     json_Decode := λ _, Answer {| Data := [] |};
     registry := (publishers, nil_error) |}.

Definition sample_state (id secret : string) (db : gmap string string) : State :=
  {| c := {| Config := {| TwitchClientID := id; TwitchClientSecret := secret |};
             DB := db |};
     calls := [];
     logs := [] |}.

Definition E_diskfull : Env := sample_env 200 (Some diskFull) [].
Definition E_expired : Env := sample_env 401 nil_error [].
Definition E_valid : Env := sample_env 200 nil_error [].

Definition E_none_selected : Env :=
  sample_env 200 nil_error [ {| Name := "bob"; TwitchStream := "" |} ].

Definition s_tok1 : State := sample_state "id" "secret" {[ "twitchAccessToken" := "tok1" ]}.
Definition s_cold : State := sample_state "id" "secret" ∅.
Definition s_placeholder : State :=
  sample_state "abcd1234" "secret" {[ "twitchAccessToken" := "tok1" ]}.

(** ** Vocabulary of the further properties *)

(** A run kept the configuration and every key of the bucket other than
    the token key. *)
Definition other_keys_kept (s s' : State) : Prop :=
  Config (c s') = Config (c s)
  ∧ ∀ k, k ≠ tokenKey → DB (c s') !! k = DB (c s) !! k.

(** Log lines appended at once. *)
Definition add_logs (ls : list (Level * string)) (s : State) : State :=
  {| c := c s; calls := calls s; logs := logs s ++ ls |}.

(** The lines [getStreams] logs for a decoded list (lines 201-206). *)
Definition stream_log_lines (data : list StreamData) : list (Level * string) :=
  (if decide (length data = 0%nat)
   then [(DebugLevel, "no twitch streams currently live")] else [])
  ++ map (λ d, (DebugLevel, "Live Now:" +:+ UserName d)) data.

(** Two query strings put together the way the loop does. *)
Definition join_queries (q1 q2 : string) : string :=
  if decide (q1 = "") then q2
  else if decide (q2 = "") then q1
  else q1 +:+ "&" +:+ q2.

(** A publisher the loop selects. *)
Definition selected (p : Publisher) : Prop := TwitchStream p ≠ "".

(** No control byte and no "#" in a string. *)
Fixpoint plain (s : string) : bool :=
  match s with
  | EmptyString => true
  | String a rest => negb (isCTL a) && negb (Ascii.eqb a "#") && plain rest
  end.

(** The four shapes of the calls of [twitchAuthToken]. *)
Definition token_trace (tok : string) (cfg : ClientCredentialsConfig)
    (ks : list Call) : Prop :=
  ks = [CallView]
  ∨ ks = [CallView; CallHTTP (validate_request tok); CallView]
  ∨ ks = [CallView; CallHTTP (validate_request tok); CallToken cfg]
  ∨ ks = [CallView; CallHTTP (validate_request tok); CallToken cfg;
          CallUpdate; CallView].

(** The state of [twitchAuthToken] after the first read and the validation
    of the token read. *)
Definition validated (s : State) (tok : string) : State :=
  add_call (CallHTTP (validate_request tok)) (add_call CallView s).

(** Environments that differ from a given one in one answer. *)
Definition with_grant (g : answer Token) (E : Env) : Env :=
  {| bolt_begin := bolt_begin E; bolt_Put := bolt_Put E;
     bolt_commit := bolt_commit E; http_Do := http_Do E;
     oauth2_Token := λ _, g; json_Decode := json_Decode E;
     registry := registry E |}.

Definition with_registry (r : list Publisher * error) (E : Env) : Env :=
  {| bolt_begin := bolt_begin E; bolt_Put := bolt_Put E;
     bolt_commit := bolt_commit E; http_Do := http_Do E;
     oauth2_Token := oauth2_Token E; json_Decode := json_Decode E;
     registry := r |}.

Definition with_decode (d : answer TwitchStreamsResponse) (E : Env) : Env :=
  {| bolt_begin := bolt_begin E; bolt_Put := bolt_Put E;
     bolt_commit := bolt_commit E; http_Do := http_Do E;
     oauth2_Token := oauth2_Token E; json_Decode := λ _, d;
     registry := registry E |}.

(** An identity provider for which "tok1" has expired and every other
    token is valid. *)
Definition with_tok1_expired (E : Env) : Env :=
  {| bolt_begin := bolt_begin E; bolt_Put := bolt_Put E;
     bolt_commit := bolt_commit E;
     http_Do := λ r,
       if decide (Header r !! "Authorization" = Some "OAuth tok1")
       then Answer {| StatusCode := 401; Body := "" |}
       else Answer {| StatusCode := 200; Body := "{}" |};
     oauth2_Token := oauth2_Token E; json_Decode := json_Decode E;
     registry := registry E |}.

Definition grantDown : error_value := foreignError "oauth2" "cannot fetch token".
Definition registryDown : error_value := foreignError "registry" "cannot read publishers".

Definition anna : Publisher := {| Name := "anna"; TwitchStream := "anna_tv" |}.
Definition bob : Publisher := {| Name := "bob"; TwitchStream := "" |}.
Definition carl : Publisher := {| Name := "carl"; TwitchStream := "carl_tv" |}.

Definition stream_of (name : string) : StreamData :=
  {| ID := "1"; UserID := "2"; UserName := name; GameID := "3";
     Type_ := "live"; Title := "title"; ViewerCount := 7;
     StartedAt := "2020-01-01T00:00:00Z" |}.

Definition E_two_selected : Env := sample_env 200 nil_error [anna; bob; carl].

Definition newline_name : Publisher :=
  {| Name := String (ascii_of_nat 10) ""; TwitchStream := "tv" |}.

Definition E_newline : Env := sample_env 200 nil_error [newline_name].

Definition E_two_live : Env :=
  with_decode (Answer {| Data := [stream_of "anna"; stream_of "carl"] |})
    E_two_selected.

Definition s_other_key : State :=
  sample_state "id" "secret"
    (<["twitchAccessToken" := "tok1"]> {[ "motd" := "hello" ]}).

Ltac go_unfold :=
  unfold mbind, mret, Go_bind, Go_ret, bind, ret, modify, get, panic in *.

(** ** Runs of the cache operations *)

Section CacheRuns.

Variable E : Env.

Lemma len_lt_1 (b : bytes) :
  (len b <? 1)%nat = true ↔ (b = None ∨ b = Some "").
Proof.
  destruct b as [[|a t]|]; simpl; split; intros H;
    try done; try (by left); try (by right).
  destruct H as [H|H]; discriminate H.
Qed.

Lemma set_DB_same (s : State) (db : gmap string string) :
  db = DB (c s) → set_DB db s = s.
Proof. intros ->. by destruct s as [[cfg db] ks ls]. Qed.

Lemma getCachedAccessToken_miss (s : State) :
  cached s = None ∨ cached s = Some "" →
  getCachedAccessToken s = (Returns ("", errTokenNotFound), add_call CallView s).
Proof.
  intros H. unfold getCachedAccessToken, DB_View, get_token. go_unfold. simpl.
  unfold Bucket_Get. change (DB (c s) !! "twitchAccessToken") with (cached s).
  apply len_lt_1 in H. by rewrite H.
Qed.

Lemma getCachedAccessToken_hit (s : State) (t : string) :
  cached s = Some t → t ≠ "" →
  getCachedAccessToken s = (Returns (t, nil_error), add_call CallView s).
Proof.
  intros H Ht. unfold getCachedAccessToken, DB_View, get_token. go_unfold. simpl.
  unfold Bucket_Get. change (DB (c s) !! "twitchAccessToken") with (cached s).
  rewrite H. destruct t as [|a t]; [done|]. reflexivity.
Qed.

(** [DB.Update] on the closure of [updateCachedAccessToken] returns the
    error of the write transaction. *)
Lemma DB_Update_put_token (s : State) (t : string) :
  ∃ err, DB_Update E nil_error (put_token E t) s
         = (Returns (err, write_error E t),
            set_DB (store_after E t (DB (c s))) (add_call CallUpdate s)).
Proof.
  unfold DB_Update, put_token, Bucket_Put, store_after, write_error, tokenKey.
  go_unfold. simpl.
  destruct (bolt_begin E) as [e|]; [exists None; by rewrite set_DB_same|].
  destruct (bolt_Put E _ t) as [e|]; [exists (Some e); by rewrite set_DB_same|].
  destruct (bolt_commit E) as [e|]; exists None; [by rewrite set_DB_same|done].
Qed.

Lemma updateCachedAccessToken_run (s : State) (t : string) :
  t ≠ "" →
  updateCachedAccessToken E t s
  = (Returns nil_error,
     set_DB (store_after E t (DB (c s))) (add_call CallUpdate s)).
Proof.
  intros Ht. unfold updateCachedAccessToken.
  destruct (decide (t = "")) as [|_]; [done|].
  destruct (DB_Update_put_token s t) as [err Hrun].
  unfold mbind, Go_bind, bind. by rewrite Hrun.
Qed.

Lemma cached_set_DB (s : State) (db : gmap string string) :
  cached (set_DB db s) = db !! tokenKey.
Proof. reflexivity. Qed.

Lemma cached_add_call (s : State) (k : Call) : cached (add_call k s) = cached s.
Proof. reflexivity. Qed.

Lemma store_after_lookup (t : string) (db : gmap string string) :
  store_after E t db !! tokenKey
  = match write_error E t with Some _ => db !! tokenKey | None => Some t end.
Proof.
  unfold store_after. destruct (write_error E t); [done|].
  apply lookup_insert_eq.
Qed.

End CacheRuns.

(** ** Runs of validation, refresh and the token lifecycle *)

Lemma bind_run {A B} (m : Go A) (k : A → Go B) (s s' : State) (a : A) :
  m s = (Returns a, s') → (m ≫= k) s = k a s'.
Proof. intros H. unfold mbind, Go_bind, bind. by rewrite H. Qed.

Lemma validate_url_parses :
  http_NewRequest "GET" "https://id.twitch.tv/oauth2/validate"
  = (Some {| Method := "GET"; URL := "https://id.twitch.tv/oauth2/validate";
             Header := ∅ |}, nil_error).
Proof. reflexivity. Qed.

Section TokenRuns.

Variable E : Env.

Lemma validateAccessToken_run (s : State) (tok : string) :
  validateAccessToken E tok s
  = (Returns (validation_result E tok),
     add_call (CallHTTP (validate_request tok)) s).
Proof.
  unfold validateAccessToken. rewrite validate_url_parses.
  unfold log_if_error, Header_Set, DefaultClient_Do, validation_result.
  go_unfold. cbn [Method URL Header].
  fold (validate_request tok).
  destruct (http_Do E (validate_request tok)) as [resp|e]; [|done].
  by destruct (decide (StatusCode resp ≠ 200)).
Qed.

Lemma getNewAuthToken_run (s : State) :
  getNewAuthToken E s = (Returns (refresh_error E s), refresh_state E s).
Proof.
  unfold getNewAuthToken, Config_Token, refresh_error, refresh_state.
  unfold mbind at 1, Go_bind, bind at 1, get. fold (grant_config s).
  unfold mbind at 1, Go_bind, bind at 1.
  unfold mbind at 1, Go_bind, bind at 1, modify, mret, Go_ret, ret.
  destruct (oauth2_Token E (grant_config s)) as [token|e]; [|done].
  unfold mbind at 1, Go_bind, bind at 1, log_Debug, modify.
  destruct (decide (AccessToken token = "")) as [Heq|Hne].
  - rewrite Heq. reflexivity.
  - erewrite bind_run; [|by apply updateCachedAccessToken_run]. reflexivity.
Qed.

End TokenRuns.

Section Lifecycle.

Variable E : Env.

Lemma cached_cases (s : State) :
  (cached s = None ∨ cached s = Some "") ∨ ∃ t, cached s = Some t ∧ t ≠ "".
Proof.
  destruct (cached s) as [t|]; [|by left; left].
  destruct (decide (t = "")) as [->|Hne]; [by left; right|].
  right. by exists t.
Qed.

Lemma getCachedAccessToken_state (s : State) :
  (getCachedAccessToken s).2 = add_call CallView s.
Proof.
  destruct (cached_cases s) as [Hmiss|(t & Ht & Hne)].
  - by rewrite getCachedAccessToken_miss.
  - by rewrite (getCachedAccessToken_hit s t).
Qed.

Lemma twitchAuthToken_miss (s : State) :
  cached s = None ∨ cached s = Some "" →
  twitchAuthToken E s = (Returns ("", errTokenNotFound), add_call CallView s).
Proof.
  intros H. unfold twitchAuthToken. cbv zeta.
  erewrite bind_run; [|by apply getCachedAccessToken_miss]. reflexivity.
Qed.

(** The second read of [twitchAuthToken], lines 141-146. *)
Lemma reread_hit (s : State) (t : string) :
  cached s = Some t → t ≠ "" →
  ('(token, err) ← getCachedAccessToken ;
   match err with
   | Some e => mret ("", Some e)
   | None => mret (token, nil_error)
   end) s = (Returns (t, nil_error), add_call CallView s).
Proof.
  intros H Hne.
  erewrite bind_run; [|by apply getCachedAccessToken_hit]. reflexivity.
Qed.

Lemma reread_miss (s : State) :
  cached s = None ∨ cached s = Some "" →
  ('(token, err) ← getCachedAccessToken ;
   match err with
   | Some e => mret ("", Some e)
   | None => mret (token, nil_error)
   end) s = (Returns ("", errTokenNotFound), add_call CallView s).
Proof.
  intros H.
  erewrite bind_run; [|by apply getCachedAccessToken_miss]. reflexivity.
Qed.

Lemma twitchAuthToken_pass (s : State) (tok : string) :
  cached s = Some tok → tok ≠ "" → validation_result E tok = None →
  twitchAuthToken E s
  = (Returns (tok, nil_error),
     add_call CallView
       (add_call (CallHTTP (validate_request tok)) (add_call CallView s))).
Proof.
  intros H Hne Hv. unfold twitchAuthToken. cbv zeta.
  erewrite bind_run; [|by apply getCachedAccessToken_hit]. cbv beta iota.
  erewrite bind_run; [|by apply validateAccessToken_run].
  rewrite Hv. by apply reread_hit.
Qed.

(** With an invalid cached token the run is the refresh followed, when it
    reports no error, by the second read. *)
Lemma twitchAuthToken_invalid (s : State) (tok : string) (e : error_value) :
  cached s = Some tok → tok ≠ "" → validation_result E tok = Some e →
  let s1 := add_call (CallHTTP (validate_request tok)) (add_call CallView s) in
  twitchAuthToken E s
  = match refresh_error E s1 with
    | Some e' => (Returns ("", Some e'), refresh_state E s1)
    | None =>
        ((getCachedAccessToken (refresh_state E s1)).1,
         add_call CallView (refresh_state E s1))
    end.
Proof.
  intros H Hne Hv s1. unfold twitchAuthToken. cbv zeta.
  erewrite bind_run; [|by apply getCachedAccessToken_hit]. cbv beta iota.
  erewrite bind_run; [|by apply validateAccessToken_run].
  rewrite Hv. cbv beta iota.
  erewrite bind_run; [|by apply getNewAuthToken_run]. fold s1.
  destruct (refresh_error E s1) as [e'|]; [done|].
  destruct (cached_cases (refresh_state E s1)) as [Hmiss|(t & Ht & Htne)].
  - rewrite reread_miss by done. by rewrite getCachedAccessToken_miss.
  - rewrite (reread_hit _ t) by done. by rewrite (getCachedAccessToken_hit _ t).
Qed.

End Lifecycle.

(** ** The token cache: claims C1, C4, C5 and C6 *)

(** C1 (defect of the code).  The claim: when the write transaction of the
    store fails, [updateCachedAccessToken] returns the store's error.  The
    code at a non-empty token and a store whose commit fails for lack of
    disk space: [DB.Update] returns the store's error, the stored token is
    still the old one, and [updateCachedAccessToken] returns nil. *)
Theorem updateCachedAccessToken_drops_write_failure :
  (∃ err, (DB_Update E_diskfull nil_error (put_token E_diskfull "tok2") s_tok1).1
          = Returns (err, Some diskFull))
  ∧ updateCachedAccessToken E_diskfull "tok2" s_tok1
    = (Returns nil_error, add_call CallUpdate s_tok1)
  ∧ cached (updateCachedAccessToken E_diskfull "tok2" s_tok1).2 = Some "tok1".
Proof.
  split; [|split].
  - by exists nil_error.
  - reflexivity.
  - reflexivity.
Qed.

(** The general form: whatever the step at which the write transaction
    fails, [DB.Update] returns the error and [updateCachedAccessToken]
    returns nil, the store unchanged. *)
Lemma updateCachedAccessToken_hides_write_error (E : Env) (s : State)
    (t : string) (e : error_value) :
  t ≠ "" → write_error E t = Some e →
  (∃ err, (DB_Update E nil_error (put_token E t) s).1 = Returns (err, Some e))
  ∧ updateCachedAccessToken E t s = (Returns nil_error, add_call CallUpdate s).
Proof.
  intros Ht He. split.
  - destruct (DB_Update_put_token E s t) as [err Hrun].
    exists err. by rewrite Hrun, He.
  - rewrite updateCachedAccessToken_run by done.
    unfold store_after. rewrite He. by rewrite set_DB_same.
Qed.

(** The same failing store seen through the operations built on the
    write: the read after the write returns the old token, and a refresh
    whose token could not be stored ends with the token that had just
    failed validation. *)
Example read_after_failed_write :
  (getCachedAccessToken (updateCachedAccessToken E_diskfull "tok2" s_tok1).2).1
  = Returns ("tok1", nil_error).
Proof. reflexivity. Qed.

Example refresh_after_failed_write :
  (twitchAuthToken (sample_env 401 (Some diskFull) []) s_tok1).1
  = Returns ("tok1", nil_error).
Proof. reflexivity. Qed.

(** C4, as stated, fails on a store whose write transaction fails: the
    token is not empty, [updateCachedAccessToken] returns nil, and the read
    that follows returns the old token "tok1" and not "tok2"; so the round
    trip does not hold for every store. *)
Lemma persist_then_read_counterexample :
  "tok2" ≠ ""
  ∧ updateCachedAccessToken E_diskfull "tok2" s_tok1
    = (Returns nil_error, add_call CallUpdate s_tok1)
  ∧ (getCachedAccessToken (add_call CallUpdate s_tok1)).1
    = Returns ("tok1", nil_error)
  ∧ ¬ (∀ (E : Env) (s : State) (T : string),
         T ≠ "" →
         ∃ s1, updateCachedAccessToken E T s = (Returns nil_error, s1)
               ∧ getCachedAccessToken s1
                 = (Returns (T, nil_error), add_call CallView s1)).
Proof.
  split; [done|]. split; [reflexivity|]. split; [reflexivity|].
  intros Hall.
  destruct (Hall E_diskfull s_tok1 "tok2") as (s1 & Hupdate & Hread); [done|].
  assert (Hs1 : s1 = add_call CallUpdate s_tok1).
  { change (updateCachedAccessToken E_diskfull "tok2" s_tok1)
      with (Returns nil_error, add_call CallUpdate s_tok1) in Hupdate.
    by injection Hupdate as <-. }
  subst s1.
  change (getCachedAccessToken (add_call CallUpdate s_tok1))
    with (Returns ("tok1", nil_error),
          add_call CallView (add_call CallUpdate s_tok1)) in Hread.
  discriminate Hread.
Qed.

(** C4 (amended).  For every non-empty token [T] and every prior state of
    the cache, on a store whose write transaction commits, persisting [T]
    with [updateCachedAccessToken] returns no error and the read that
    follows returns [T] and no error. *)
Theorem persist_then_read (E : Env) (s : State) (T : string) :
  T ≠ "" → write_commits E T →
  ∃ s1, updateCachedAccessToken E T s = (Returns nil_error, s1)
        ∧ getCachedAccessToken s1 = (Returns (T, nil_error), add_call CallView s1).
Proof.
  intros HT Hw. eexists. split; [by apply updateCachedAccessToken_run|].
  apply getCachedAccessToken_hit; [|done].
  rewrite cached_set_DB, store_after_lookup. by rewrite Hw.
Qed.

Lemma persist_then_read_witness :
  ∃ s1, updateCachedAccessToken E_valid "tok2" s_tok1 = (Returns nil_error, s1)
        ∧ getCachedAccessToken s1 = (Returns ("tok2", nil_error), add_call CallView s1).
Proof. apply (persist_then_read E_valid s_tok1 "tok2"); [done|reflexivity]. Defined.

(** C5.  For every prior state, [updateCachedAccessToken] called with the
    empty string returns the error "no token provided" and leaves the whole
    state as it was: the stored token is unchanged and no transaction is
    added to the calls. *)
Theorem updateCachedAccessToken_rejects_empty (E : Env) (s : State) :
  updateCachedAccessToken E "" s = (Returns errNoToken, s)
  ∧ cached (updateCachedAccessToken E "" s).2 = cached s
  ∧ calls (updateCachedAccessToken E "" s).2 = calls s.
Proof. done. Qed.

(** C6.  When the token key is absent or holds the empty value,
    [getCachedAccessToken] returns the error "not found", and
    [twitchAuthToken] returns that same error after the one read
    transaction: no validation request and no grant are made. *)
Theorem cold_start_fails_without_refresh (E : Env) (s : State) :
  cached s = None ∨ cached s = Some "" →
  getCachedAccessToken s = (Returns ("", errTokenNotFound), add_call CallView s)
  ∧ twitchAuthToken E s = (Returns ("", errTokenNotFound), add_call CallView s)
  ∧ calls (twitchAuthToken E s).2 = calls s ++ [CallView].
Proof.
  intros H. split; [by apply getCachedAccessToken_miss|].
  rewrite twitchAuthToken_miss by done. done.
Qed.

Lemma cold_start_fails_without_refresh_witness :
  getCachedAccessToken s_cold = (Returns ("", errTokenNotFound), add_call CallView s_cold)
  ∧ twitchAuthToken E_valid s_cold
    = (Returns ("", errTokenNotFound), add_call CallView s_cold)
  ∧ calls (twitchAuthToken E_valid s_cold).2 = calls s_cold ++ [CallView].
Proof. apply (cold_start_fails_without_refresh E_valid s_cold). by left. Defined.

(** ** The token lifecycle: claims C3, C7 and C9 *)



(** C7.  When the cache holds a non-empty token that passes validation,
    [twitchAuthToken] returns that token and no error; the calls it makes
    are a read, the validation request and a read, with no grant among
    them; the controller (its store included) is unchanged, so that a
    second call returns the same token. *)
Theorem twitchAuthToken_valid_cached (E : Env) (s : State) (tok : string) :
  cached s = Some tok → tok ≠ "" → validation_result E tok = None →
  ∃ s', twitchAuthToken E s = (Returns (tok, nil_error), s')
        ∧ calls s' = calls s ++ [CallView; CallHTTP (validate_request tok); CallView]
        ∧ refresh_count [CallView; CallHTTP (validate_request tok); CallView] = 0%nat
        ∧ c s' = c s
        ∧ (twitchAuthToken E s').1 = Returns (tok, nil_error).
Proof.
  intros H Hne Hv. eexists. split; [by apply twitchAuthToken_pass|].
  split; [|split; [done|split; [done|]]].
  - simpl. by rewrite <- !app_assoc.
  - by rewrite (twitchAuthToken_pass E _ tok).
Qed.

Lemma twitchAuthToken_valid_cached_witness :
  ∃ s', twitchAuthToken E_valid s_tok1 = (Returns ("tok1", nil_error), s')
        ∧ calls s' = calls s_tok1 ++ [CallView; CallHTTP (validate_request "tok1"); CallView]
        ∧ refresh_count [CallView; CallHTTP (validate_request "tok1"); CallView] = 0%nat
        ∧ c s' = c s_tok1
        ∧ (twitchAuthToken E_valid s').1 = Returns ("tok1", nil_error).
Proof.
  apply (twitchAuthToken_valid_cached E_valid s_tok1 "tok1");
    [reflexivity | done | reflexivity].
Defined.




Section Invariant.

Variable E : Env.

Lemma stores_nonempty_from (s0 s s' : State) :
  cached s0 = cached s → stores_nonempty s0 s' → stores_nonempty s s'.
Proof. intros H [H'|H']; [left; congruence|by right]. Qed.

Lemma stores_nonempty_inv (s s' : State) :
  stores_nonempty s s' → token_inv s → token_inv s'.
Proof.
  unfold token_inv. intros [H|(t & Ht & H)] Hinv; rewrite H; [done|].
  congruence.
Qed.

Lemma getCachedAccessToken_stores (s : State) :
  stores_nonempty s (getCachedAccessToken s).2.
Proof. rewrite getCachedAccessToken_state. by left. Qed.

Lemma store_after_stores (s s' : State) (t : string) :
  t ≠ "" → cached s' = store_after E t (DB (c s)) !! tokenKey →
  stores_nonempty s s'.
Proof.
  intros Ht H. rewrite store_after_lookup in H.
  destruct (write_error E t); [by left|right; by exists t].
Qed.

Lemma updateCachedAccessToken_stores (s : State) (t : string) :
  stores_nonempty s (updateCachedAccessToken E t s).2.
Proof.
  destruct (decide (t = "")) as [->|Hne]; [by left|].
  rewrite updateCachedAccessToken_run by done. by eapply store_after_stores.
Qed.

Lemma refresh_state_stores (s : State) : stores_nonempty s (refresh_state E s).
Proof.
  unfold refresh_state.
  destruct (oauth2_Token E (grant_config s)) as [token|e]; [|by left].
  destruct (decide (AccessToken token = "")); [by left|].
  by eapply store_after_stores.
Qed.

Lemma getNewAuthToken_stores (s : State) :
  stores_nonempty s (getNewAuthToken E s).2.
Proof. rewrite getNewAuthToken_run. apply refresh_state_stores. Qed.

Lemma twitchAuthToken_stores (s : State) :
  stores_nonempty s (twitchAuthToken E s).2.
Proof.
  destruct (cached_cases s) as [Hmiss|(tok & Htok & Hne)].
  { rewrite twitchAuthToken_miss by done. by left. }
  destruct (validation_result E tok) as [e|] eqn:Hv.
  - rewrite (twitchAuthToken_invalid E s tok e) by done. cbv zeta.
    set (s1 := add_call (CallHTTP (validate_request tok)) (add_call CallView s)).
    apply (stores_nonempty_from s1); [done|].
    pose proof (refresh_state_stores s1) as Hs.
    destruct (refresh_error E s1); cbn [snd]; [done|].
    destruct Hs as [Hs|Hs]; [by left|by right].
  - rewrite (twitchAuthToken_pass E s tok) by done. by left.
Qed.

End Invariant.

(** C9.  The four operations that touch the stored token keep the
    invariant that it is absent or non-empty: each leaves the stored value
    as it was or stores a non-empty one; and a read treats a stored empty
    value as it treats an absent key. *)
Theorem token_inv_preserved (E : Env) (s : State) :
  token_inv s →
  (token_inv (getCachedAccessToken s).2
   ∧ (∀ t, token_inv (updateCachedAccessToken E t s).2)
   ∧ token_inv (getNewAuthToken E s).2
   ∧ token_inv (twitchAuthToken E s).2)
  ∧ (stores_nonempty s (getCachedAccessToken s).2
     ∧ (∀ t, stores_nonempty s (updateCachedAccessToken E t s).2)
     ∧ stores_nonempty s (getNewAuthToken E s).2
     ∧ stores_nonempty s (twitchAuthToken E s).2)
  ∧ (∀ s0, cached s0 = Some "" →
       (getCachedAccessToken s0).1
       = (getCachedAccessToken (set_DB (delete tokenKey (DB (c s0))) s0)).1).
Proof.
  intros Hinv. split; [|split].
  - split; [|split; [intros t|split]];
      (eapply stores_nonempty_inv; [|exact Hinv]).
    + apply getCachedAccessToken_stores.
    + apply updateCachedAccessToken_stores.
    + apply getNewAuthToken_stores.
    + apply twitchAuthToken_stores.
  - split; [|split; [intros t|split]].
    + apply getCachedAccessToken_stores.
    + apply updateCachedAccessToken_stores.
    + apply getNewAuthToken_stores.
    + apply twitchAuthToken_stores.
  - intros s0 H0. rewrite !getCachedAccessToken_miss; [done| |by right].
    left. rewrite cached_set_DB. apply lookup_delete_eq.
Qed.

Lemma token_inv_preserved_witness :
  (token_inv (getCachedAccessToken s_tok1).2
   ∧ (∀ t, token_inv (updateCachedAccessToken E_expired t s_tok1).2)
   ∧ token_inv (getNewAuthToken E_expired s_tok1).2
   ∧ token_inv (twitchAuthToken E_expired s_tok1).2)
  ∧ (stores_nonempty s_tok1 (getCachedAccessToken s_tok1).2
     ∧ (∀ t, stores_nonempty s_tok1 (updateCachedAccessToken E_expired t s_tok1).2)
     ∧ stores_nonempty s_tok1 (getNewAuthToken E_expired s_tok1).2
     ∧ stores_nonempty s_tok1 (twitchAuthToken E_expired s_tok1).2)
  ∧ (∀ s0, cached s0 = Some "" →
       (getCachedAccessToken s0).1
       = (getCachedAccessToken (set_DB (delete tokenKey (DB (c s0))) s0)).1).
Proof. apply (token_inv_preserved E_expired s_tok1). by vm_compute. Defined.

(** ** The stream query: claims C2, C8 and C10 *)

Lemma append_cons (a : ascii) (s1 s2 : string) :
  String a s1 +:+ s2 = String a (s1 +:+ s2).
Proof. reflexivity. Qed.

Lemma append_assoc (s1 s2 s3 : string) :
  (s1 +:+ s2) +:+ s3 = s1 +:+ (s2 +:+ s3).
Proof.
  induction s1 as [|a s1 IH]; [done|]. rewrite !append_cons. by f_equal.
Qed.

Lemma append_nonempty_r (s1 s2 : string) : s2 ≠ "" → s1 +:+ s2 ≠ "".
Proof. destruct s1; [done|]. rewrite append_cons. discriminate. Qed.

Lemma concat_merge_head (sep a b : string) (ts : list string) :
  String.concat sep (((a +:+ sep) +:+ b) :: ts)
  = String.concat sep (a :: b :: ts).
Proof.
  destruct ts as [|t ts]; cbn [String.concat]; by rewrite !append_assoc.
Qed.

(** The loop started from any value of [userQuery]. *)
Lemma userQuery_fold (publishers : list Publisher) (userQuery : string) :
  fold_left userQuery_step publishers userQuery
  = String.concat "&"
      ((if decide (userQuery = "") then [] else [userQuery])
       ++ query_terms publishers).
Proof.
  revert userQuery.
  induction publishers as [|p ps IH]; intros userQuery.
  - simpl. destruct (decide (userQuery = "")) as [->|]; done.
  - cbn [fold_left]. rewrite IH. unfold userQuery_step, query_terms.
    destruct (decide (TwitchStream p = "")) as [Hp|Hp].
    + rewrite filter_cons_False by (intros H; by apply H). done.
    + rewrite filter_cons_True by done. cbn [map].
      destruct (decide (userQuery = "")) as [->|Hq].
      * destruct (decide ("" ≠ "")) as [|_]; [done|].
        destruct (decide ("" +:+ "user_login=" +:+ Name p = "")); done.
      * destruct (decide (userQuery ≠ "")) as [_|]; [|done].
        destruct (decide (_ = "")) as [Heq|_].
        { by apply append_nonempty_r in Heq. }
        cbn [app]. apply concat_merge_head.
Qed.

(** C8.  For every publisher list the query string the loop of
    [getStreams] builds is the specification's: the terms
    [user_login=<Name>] of the publishers whose [TwitchStream] is not
    empty, in list order and with repetitions kept, joined by "&". *)
Theorem userQuery_loop_is_spec (publishers : list Publisher) :
  userQuery_loop publishers = userQuery_spec publishers.
Proof. unfold userQuery_loop. by rewrite userQuery_fold. Qed.

Lemma userQuery_loop_none_selected (publishers : list Publisher) :
  Forall (λ p, TwitchStream p = "") publishers → userQuery_loop publishers = "".
Proof.
  unfold userQuery_loop. induction 1 as [|p ps Hp _ IH]; [done|].
  cbn [fold_left]. unfold userQuery_step at 2.
  by destruct (decide (TwitchStream p = "")).
Qed.

Example userQuery_loop_keeps_repeats :
  userQuery_loop [ {| Name := "anna"; TwitchStream := "anna_tv" |};
                   {| Name := "bob"; TwitchStream := "" |};
                   {| Name := "anna"; TwitchStream := "other" |} ]
  = "user_login=anna&user_login=anna".
Proof. reflexivity. Qed.

Lemma validateClientCredentials_run (s : State) :
  ∃ err, validateClientCredentials s = (Returns err, s)
         ∧ ((err = errDefaultClientID
             ∧ TwitchClientID (Config (c s)) = defaultClientID)
            ∨ (err = errDefaultClientSecret
               ∧ TwitchClientID (Config (c s)) ≠ defaultClientID
               ∧ TwitchClientSecret (Config (c s)) = defaultClientSecret)
            ∨ (err = nil_error
               ∧ TwitchClientID (Config (c s)) ≠ defaultClientID
               ∧ TwitchClientSecret (Config (c s)) ≠ defaultClientSecret)).
Proof.
  unfold validateClientCredentials. go_unfold.
  destruct (decide (TwitchClientID (Config (c s)) = defaultClientID)).
  { eexists. split; [done|]. by left. }
  destruct (decide (TwitchClientSecret (Config (c s)) = defaultClientSecret)).
  { eexists. split; [done|]. right. by left. }
  eexists. split; [done|]. right. by right.
Qed.

(** C2.  When the client id or the client secret of the configuration is
    its placeholder, [getStreams] returns the error of
    [validateClientCredentials] and the state is the one it started from:
    no transaction on the store, no validation, no grant, no streams
    request. *)
Theorem getStreams_placeholder_credentials (E : Env) (s : State) :
  TwitchClientID (Config (c s)) = defaultClientID
  ∨ TwitchClientSecret (Config (c s)) = defaultClientSecret →
  ∃ err, (err = errDefaultClientID ∨ err = errDefaultClientSecret)
         ∧ getStreams E s = (Returns ([], err), s)
         ∧ calls (getStreams E s).2 = calls s.
Proof.
  intros H. unfold getStreams.
  destruct (validateClientCredentials_run s) as (err & Hrun & Hcases).
  erewrite bind_run; [|exact Hrun].
  destruct Hcases as [[-> _]|[(-> & _ & _)|(_ & Hid & Hsecret)]].
  - exists errDefaultClientID. split; [by left|done].
  - exists errDefaultClientSecret. split; [by right|done].
  - by destruct H.
Qed.

Lemma getStreams_placeholder_credentials_witness :
  ∃ err, (err = errDefaultClientID ∨ err = errDefaultClientSecret)
         ∧ getStreams E_valid s_placeholder = (Returns ([], err), s_placeholder)
         ∧ calls (getStreams E_valid s_placeholder).2 = calls s_placeholder.
Proof.
  apply (getStreams_placeholder_credentials E_valid s_placeholder).
  left. reflexivity.
Defined.

Lemma for_range_log_Debug (l : list StreamData) (msg : StreamData → string)
    (s : State) :
  ∃ s', for_range l (λ d, log_Debug (msg d)) s = (Returns tt, s')
        ∧ c s' = c s ∧ calls s' = calls s.
Proof.
  revert s. induction l as [|d l IH]; intros s; [by exists s|].
  destruct (IH (add_log DebugLevel (msg d) s)) as (s' & Hrun & Hc & Hcalls).
  exists s'. split; [|done]. cbn [for_range].
  erewrite bind_run; [exact Hrun|done].
Qed.

Lemma log_if_empty_run (l : list StreamData) (s : State) :
  ∃ s', (if decide (length l = 0%nat)
         then log_Debug "no twitch streams currently live" else mret tt) s
        = (Returns tt, s')
        ∧ c s' = c s ∧ calls s' = calls s.
Proof. destruct (decide _); by eexists. Qed.

(** The run of [getStreams] once the credentials pass, a token is obtained
    and the registry answers: when the URL parses, one streams request
    carrying the query of the loop, and a result read off its answer. *)
Lemma getStreams_run (E : Env) (s s1 : State) (tok : string)
    (publishers : list Publisher) :
  TwitchClientID (Config (c s)) ≠ defaultClientID →
  TwitchClientSecret (Config (c s)) ≠ defaultClientSecret →
  twitchAuthToken E s = (Returns (tok, nil_error), s1) →
  registry E = (publishers, nil_error) →
  url_Parse ("https://api.twitch.tv/helix/streams/?" +:+ userQuery_loop publishers)
  = nil_error →
  let req := streams_request s1 tok (userQuery_loop publishers) in
  calls (getStreams E s).2 = calls s1 ++ [CallGetAllPublisher; CallHTTP req]
  ∧ c (getStreams E s).2 = c s1
  ∧ (getStreams E s).1
    = match http_Do E req with
      | Failure e => Returns ([], Some e)
      | Answer resp =>
          match json_Decode E (Body resp) with
          | Failure e => Returns ([], Some e)
          | Answer streamResponse => Returns (Data streamResponse, nil_error)
          end
      end.
Proof.
  intros Hid Hsecret Htok Hreg Hurl req.
  set (s2 := add_call (CallHTTP req) (add_call CallGetAllPublisher s1)).
  assert (Hcalls2 : calls s2 = calls s1 ++ [CallGetAllPublisher; CallHTTP req]).
  { subst s2. simpl. by rewrite <- app_assoc. }
  rewrite <- Hcalls2.
  unfold getStreams.
  destruct (validateClientCredentials_run s) as (err & Hrun & Hcases).
  erewrite bind_run; [|exact Hrun].
  destruct Hcases as [[_ ?]|[(_ & _ & ?)|(-> & _ & _)]]; [done|done|].
  cbv beta iota.
  erewrite bind_run; [|exact Htok]. cbv beta iota.
  erewrite bind_run; [|reflexivity]. rewrite Hreg. cbv beta iota zeta.
  unfold http_NewRequest. rewrite Hurl.
  do 5 (erewrite bind_run; [|reflexivity]).
  erewrite bind_run; [|reflexivity]. cbn [c add_call].
  match goal with
  | |- context [http_Do E ?r] => change r with req
  end.
  match goal with
  | |- context [add_call (CallHTTP req) ?s0] => change (add_call (CallHTTP req) s0) with s2
  end.
  destruct (http_Do E req) as [resp|e]; [|done].
  destruct (json_Decode E (Body resp)) as [streamResponse|e]; [|done].
  destruct (log_if_empty_run (Data streamResponse) s2) as (s3 & Hrun3 & Hc3 & Hcalls3).
  erewrite bind_run; [|exact Hrun3].
  destruct (for_range_log_Debug (Data streamResponse)
              (λ d, "Live Now:" +:+ UserName d) s3) as (s4 & Hrun4 & Hc4 & Hcalls4).
  erewrite bind_run; [|exact Hrun4].
  unfold mret, Go_ret, ret. cbn [fst snd].
  rewrite Hcalls4, Hcalls3, Hc4, Hc3. done.
Qed.

(** When the URL does not parse, [http.NewRequest] returns a nil request;
    the error is logged and the first [r.Header.Set] panics. *)
Lemma getStreams_bad_url (E : Env) (s s1 : State) (tok : string)
    (publishers : list Publisher) (e : error_value) :
  TwitchClientID (Config (c s)) ≠ defaultClientID →
  TwitchClientSecret (Config (c s)) ≠ defaultClientSecret →
  twitchAuthToken E s = (Returns (tok, nil_error), s1) →
  registry E = (publishers, nil_error) →
  url_Parse ("https://api.twitch.tv/helix/streams/?" +:+ userQuery_loop publishers)
  = Some e →
  getStreams E s
  = (Panics nilDeref,
     add_log ErrorLevel (Error_ e) (add_call CallGetAllPublisher s1)).
Proof.
  intros Hid Hsecret Htok Hreg Hurl. unfold getStreams.
  destruct (validateClientCredentials_run s) as (err & Hrun & Hcases).
  erewrite bind_run; [|exact Hrun].
  destruct Hcases as [[_ ?]|[(_ & _ & ?)|(-> & _ & _)]]; [done|done|].
  cbv beta iota.
  erewrite bind_run; [|exact Htok]. cbv beta iota.
  erewrite bind_run; [|reflexivity]. rewrite Hreg. cbv beta iota zeta.
  unfold http_NewRequest. rewrite Hurl.
  do 2 (erewrite bind_run; [|reflexivity]). reflexivity.
Qed.

Example url_with_control_byte_rejected :
  url_Parse ("https://api.twitch.tv/helix/streams/?"
             +:+ userQuery_loop [ {| Name := String (ascii_of_nat 10) "";
                                     TwitchStream := "tv" |} ])
  = Some (foreignError "net/url" "invalid control character in URL").
Proof. reflexivity. Qed.

(** C10.  When no publisher of the registry has a non-empty [TwitchStream]
    (the empty registry included), and the credentials are configured and a
    token is obtained, [getStreams] builds the empty query, sends the
    streams request to the URL that ends with "?", and what it returns is
    read off the answer to that request alone: the transport error, the
    decoding error, or the decoded list with no error. *)
Theorem getStreams_empty_selection (E : Env) (s s1 : State) (tok : string)
    (publishers : list Publisher) :
  TwitchClientID (Config (c s)) ≠ defaultClientID →
  TwitchClientSecret (Config (c s)) ≠ defaultClientSecret →
  twitchAuthToken E s = (Returns (tok, nil_error), s1) →
  registry E = (publishers, nil_error) →
  Forall (λ p, TwitchStream p = "") publishers →
  let req := streams_request s1 tok "" in
  userQuery_loop publishers = ""
  ∧ URL req = "https://api.twitch.tv/helix/streams/?"
  ∧ calls (getStreams E s).2 = calls s1 ++ [CallGetAllPublisher; CallHTTP req]
  ∧ c (getStreams E s).2 = c s1
  ∧ (getStreams E s).1
    = match http_Do E req with
      | Failure e => Returns ([], Some e)
      | Answer resp =>
          match json_Decode E (Body resp) with
          | Failure e => Returns ([], Some e)
          | Answer streamResponse => Returns (Data streamResponse, nil_error)
          end
      end.
Proof.
  intros Hid Hsecret Htok Hreg Hnone req.
  pose proof (userQuery_loop_none_selected publishers Hnone) as Hq.
  split; [exact Hq|]. split; [reflexivity|].
  subst req. rewrite <- Hq.
  apply getStreams_run; try done.
  by rewrite Hq.
Qed.

Lemma getStreams_empty_selection_witness :
  userQuery_loop (registry E_none_selected).1 = ""
  ∧ calls (getStreams E_none_selected s_tok1).2
    = [CallView; CallHTTP (validate_request "tok1"); CallView; CallGetAllPublisher;
       CallHTTP (streams_request s_tok1 "tok1" "")]
  ∧ (getStreams E_none_selected s_tok1).1 = Returns ([], nil_error).
Proof.
  destruct (getStreams_empty_selection E_none_selected s_tok1
              (twitchAuthToken E_none_selected s_tok1).2 "tok1"
              [ {| Name := "bob"; TwitchStream := "" |} ])
    as (Hq & _ & Hcalls & _ & Hres);
    [done | done | reflexivity | reflexivity | by repeat constructor |].
  split; [exact Hq|]. split; [exact Hcalls | exact Hres].
Defined.

(** * Further properties of twitch.go *)

(** ** The cache operations (lines 38-65) *)

(** X1.  [getCachedAccessToken] returns a token and no error exactly when
    the store holds that token under the token key and it is not empty;
    the token returned is the stored one, and the read leaves the
    controller as it was. *)
Theorem getCachedAccessToken_returns_stored (s : State) (t : string) :
  ((getCachedAccessToken s).1 = Returns (t, nil_error)
   ↔ cached s = Some t ∧ t ≠ "")
  ∧ c (getCachedAccessToken s).2 = c s.
Proof.
  split; [|by rewrite getCachedAccessToken_state].
  destruct (cached_cases s) as [Hmiss|(t0 & Ht0 & Hne)].
  - rewrite getCachedAccessToken_miss by done. split; [done|].
    intros [Ht Hne]. destruct Hmiss as [Hm|Hm]; rewrite Hm in Ht; congruence.
  - rewrite (getCachedAccessToken_hit s t0) by done. cbn [fst]. split.
    + intros [= ->]. done.
    + intros [Ht _]. congruence.
Qed.

(** X2.  On a store whose writes commit, a second
    [updateCachedAccessToken] overwrites the first: after storing [T1] and
    then [T2] the read returns [T2], and the bucket is the one that storing
    [T2] alone leaves. *)
Theorem updateCachedAccessToken_overwrites (E : Env) (s : State) (T1 T2 : string) :
  T1 ≠ "" → T2 ≠ "" → write_commits E T1 → write_commits E T2 →
  (getCachedAccessToken
     (updateCachedAccessToken E T2 (updateCachedAccessToken E T1 s).2).2).1
  = Returns (T2, nil_error)
  ∧ DB (c (updateCachedAccessToken E T2 (updateCachedAccessToken E T1 s).2).2)
    = DB (c (updateCachedAccessToken E T2 s).2).
Proof.
  intros H1 H2 Hw1 Hw2.
  rewrite (updateCachedAccessToken_run E s T1) by done. cbn [snd].
  rewrite !updateCachedAccessToken_run by done. cbn [snd].
  cbn [set_DB add_call c DB]. unfold store_after.
  unfold write_commits in Hw1, Hw2. rewrite !Hw1, !Hw2.
  split; [|apply insert_insert_eq].
  erewrite getCachedAccessToken_hit; [done| |done].
  rewrite cached_set_DB. apply lookup_insert_eq.
Qed.

Lemma updateCachedAccessToken_overwrites_witness :
  (getCachedAccessToken
     (updateCachedAccessToken E_valid "tok3"
        (updateCachedAccessToken E_valid "tok2" s_tok1).2).2).1
  = Returns ("tok3", nil_error)
  ∧ DB (c (updateCachedAccessToken E_valid "tok3"
             (updateCachedAccessToken E_valid "tok2" s_tok1).2).2)
    = DB (c (updateCachedAccessToken E_valid "tok3" s_tok1).2).
Proof.
  apply (updateCachedAccessToken_overwrites E_valid s_tok1 "tok2" "tok3");
    [done | done | reflexivity | reflexivity].
Defined.

(** ** Validation and credentials (lines 67-86 and 111-121) *)

(** X3.  [validateAccessToken] sends one request, the GET of the validate
    URL with the token after "OAuth " in the Authorization header, and
    changes nothing else.  It returns nil exactly when a response arrives
    with status 200; a transport error comes back as it is, and any other
    status gives the fixed error. *)
Theorem validateAccessToken_verdict (E : Env) (s : State) (tok : string) :
  (validateAccessToken E tok s).2 = add_call (CallHTTP (validate_request tok)) s
  ∧ ((validateAccessToken E tok s).1 = Returns nil_error
     ↔ ∃ resp, http_Do E (validate_request tok) = Answer resp
               ∧ StatusCode resp = 200)
  ∧ (∀ e, http_Do E (validate_request tok) = Failure e →
          (validateAccessToken E tok s).1 = Returns (Some e))
  ∧ (∀ resp, http_Do E (validate_request tok) = Answer resp →
             StatusCode resp ≠ 200 →
             (validateAccessToken E tok s).1 = Returns errStatusNot200).
Proof.
  rewrite validateAccessToken_run. cbn [fst snd]. unfold validation_result.
  split; [done|].
  destruct (http_Do E (validate_request tok)) as [resp|e].
  - destruct (decide (StatusCode resp ≠ 200)) as [Hne|Heq].
    + split; [|split; [done|done]]. split; [done|].
      intros (resp' & [= <-] & H200). done.
    + apply dec_stable in Heq. split; [|split; [done|]].
      * split; [|done]. intros _. by exists resp.
      * intros resp' [= <-] Hne. done.
  - split; [|split].
    + split; [done|]. intros (resp & Hresp & _). done.
    + by intros e' [= <-].
    + done.
Qed.

(** X4.  [validateClientCredentials] returns nil exactly when neither
    credential is its placeholder; the client id is looked at first, so two
    placeholders give the error of the client id; the controller is never
    changed. *)
Theorem validateClientCredentials_verdict (s : State) :
  (validateClientCredentials s).2 = s
  ∧ ((validateClientCredentials s).1 = Returns nil_error
     ↔ TwitchClientID (Config (c s)) ≠ defaultClientID
       ∧ TwitchClientSecret (Config (c s)) ≠ defaultClientSecret)
  ∧ (TwitchClientID (Config (c s)) = defaultClientID →
     (validateClientCredentials s).1 = Returns errDefaultClientID).
Proof.
  destruct (validateClientCredentials_run s) as (err & Hrun & Hcases).
  rewrite Hrun. cbn [fst snd]. split; [done|].
  destruct Hcases as [[-> Hid]|[(-> & Hid & Hsec)|(-> & Hid & Hsec)]].
  - split; [|done]. split; [done|]. by intros [? _].
  - split; [|done]. split; [done|]. by intros [_ ?].
  - split; [|done]. done.
Qed.

(** ** The refresh (lines 88-109) *)

Lemma refresh_state_failed (E : Env) (s : State) (e : error_value) :
  refresh_error E s = Some e →
  (oauth2_Token E (grant_config s) = Failure e
   ∨ (Some e = errNoToken
      ∧ ∃ token, oauth2_Token E (grant_config s) = Answer token
                 ∧ AccessToken token = ""))
  ∧ c (refresh_state E s) = c s
  ∧ calls (refresh_state E s) = calls s ++ [CallToken (grant_config s)].
Proof.
  unfold refresh_error, refresh_state.
  destruct (oauth2_Token E (grant_config s)) as [token|e0].
  - destruct (decide (AccessToken token = "")) as [Hempty|]; [|done].
    intros [= <-]. split; [|done]. right. split; [done|]. by exists token.
  - intros [= <-]. split; [by left|done].
Qed.

Lemma refresh_state_done (E : Env) (s : State) :
  refresh_error E s = None →
  ∃ token, oauth2_Token E (grant_config s) = Answer token
           ∧ AccessToken token ≠ ""
           ∧ refresh_state E s
             = set_DB (store_after E (AccessToken token) (DB (c s)))
                 (add_call CallUpdate
                    (add_log DebugLevel ("New Access Token: " +:+ AccessToken token)
                       (add_call (CallToken (grant_config s)) s))).
Proof.
  unfold refresh_error, refresh_state.
  destruct (oauth2_Token E (grant_config s)) as [token|e0]; [|done].
  destruct (decide (AccessToken token = "")) as [|Hne]; [done|].
  intros _. by exists token.
Qed.

(** X5.  A refresh that returns an error has not touched the store: the
    error is the one of the grant, or "no token provided" for a grant that
    answered an empty access token; the controller is unchanged and the
    grant is the only call made, so no write transaction was started. *)
Theorem getNewAuthToken_error_leaves_store (E : Env) (s : State) (e : error_value) :
  (getNewAuthToken E s).1 = Returns (Some e) →
  (oauth2_Token E (grant_config s) = Failure e
   ∨ (Some e = errNoToken
      ∧ ∃ token, oauth2_Token E (grant_config s) = Answer token
                 ∧ AccessToken token = ""))
  ∧ c (getNewAuthToken E s).2 = c s
  ∧ calls (getNewAuthToken E s).2 = calls s ++ [CallToken (grant_config s)].
Proof.
  rewrite getNewAuthToken_run. cbn [fst snd]. intros [= He].
  by apply refresh_state_failed.
Qed.

Lemma getNewAuthToken_error_leaves_store_witness :
  (oauth2_Token (with_grant (Failure grantDown) E_valid) (grant_config s_tok1)
   = Failure grantDown
   ∨ (Some grantDown = errNoToken
      ∧ ∃ token, oauth2_Token (with_grant (Failure grantDown) E_valid)
                   (grant_config s_tok1) = Answer token
                 ∧ AccessToken token = ""))
  ∧ c (getNewAuthToken (with_grant (Failure grantDown) E_valid) s_tok1).2 = c s_tok1
  ∧ calls (getNewAuthToken (with_grant (Failure grantDown) E_valid) s_tok1).2
    = calls s_tok1 ++ [CallToken (grant_config s_tok1)].
Proof.
  apply (getNewAuthToken_error_leaves_store
           (with_grant (Failure grantDown) E_valid) s_tok1 grantDown).
  reflexivity.
Defined.

(** X6.  When the grant answers a non-empty access token the refresh
    returns nil whether or not the store took the token: its calls are the
    grant and one write transaction, and afterwards the cache holds the new
    token if the write committed and what it held before if it did not. *)
Theorem getNewAuthToken_reports_success (E : Env) (s : State) (token : Token) :
  oauth2_Token E (grant_config s) = Answer token → AccessToken token ≠ "" →
  (getNewAuthToken E s).1 = Returns nil_error
  ∧ calls (getNewAuthToken E s).2
    = calls s ++ [CallToken (grant_config s); CallUpdate]
  ∧ cached (getNewAuthToken E s).2
    = match write_error E (AccessToken token) with
      | None => Some (AccessToken token)
      | Some _ => cached s
      end.
Proof.
  intros Hgrant Hne. rewrite getNewAuthToken_run. cbn [fst snd].
  unfold refresh_error, refresh_state. rewrite Hgrant.
  destruct (decide (AccessToken token = "")) as [|_]; [done|].
  split; [done|]. split.
  - simpl. by rewrite <- app_assoc.
  - rewrite cached_set_DB, store_after_lookup.
    by destruct (write_error E (AccessToken token)).
Qed.

Lemma getNewAuthToken_reports_success_witness :
  (getNewAuthToken E_diskfull s_tok1).1 = Returns nil_error
  ∧ calls (getNewAuthToken E_diskfull s_tok1).2
    = calls s_tok1 ++ [CallToken (grant_config s_tok1); CallUpdate]
  ∧ cached (getNewAuthToken E_diskfull s_tok1).2
    = match write_error E_diskfull (AccessToken {| AccessToken := "tok2" |}) with
      | None => Some (AccessToken {| AccessToken := "tok2" |})
      | Some _ => cached s_tok1
      end.
Proof.
  apply (getNewAuthToken_reports_success E_diskfull s_tok1 {| AccessToken := "tok2" |});
    [reflexivity | done].
Defined.

(** X7.  The refresh writes the access token the grant answered to the log
    in clear, at debug level, before it looks at it: the line is there also
    for an empty token that is then rejected, and a failed grant logs
    nothing. *)
Theorem getNewAuthToken_logs_token (E : Env) (s : State) :
  logs (getNewAuthToken E s).2
  = logs s ++ match oauth2_Token E (grant_config s) with
              | Answer token =>
                  [(DebugLevel, "New Access Token: " +:+ AccessToken token)]
              | Failure _ => []
              end.
Proof.
  rewrite getNewAuthToken_run. cbn [snd]. unfold refresh_state.
  destruct (oauth2_Token E (grant_config s)) as [token|e]; [|by rewrite app_nil_r].
  by destruct (decide (AccessToken token = "")).
Qed.

(** ** The token lifecycle (lines 123-147) *)

(** The four runs of [twitchAuthToken]: no usable token in the cache; a
    cached token that is valid; a refresh that fails; a refresh followed by
    the second read, which then finds a non-empty token. *)
Lemma twitchAuthToken_cases (E : Env) (s : State) :
  ((cached s = None ∨ cached s = Some "")
   ∧ twitchAuthToken E s = (Returns ("", errTokenNotFound), add_call CallView s))
  ∨ ∃ tok, cached s = Some tok ∧ tok ≠ "" ∧
      ((validation_result E tok = None
        ∧ twitchAuthToken E s
          = (Returns (tok, nil_error), add_call CallView (validated s tok)))
       ∨ (validation_result E tok ≠ None
          ∧ ∃ e, refresh_error E (validated s tok) = Some e
                 ∧ twitchAuthToken E s
                   = (Returns ("", Some e), refresh_state E (validated s tok)))
       ∨ (validation_result E tok ≠ None
          ∧ refresh_error E (validated s tok) = None
          ∧ ∃ t, t ≠ "" ∧ cached (refresh_state E (validated s tok)) = Some t
                 ∧ twitchAuthToken E s
                   = (Returns (t, nil_error),
                      add_call CallView (refresh_state E (validated s tok))))).
Proof.
  destruct (cached_cases s) as [Hmiss|(tok & Htok & Hne)].
  { left. split; [done|]. by apply twitchAuthToken_miss. }
  right. exists tok. split; [done|]. split; [done|].
  destruct (validation_result E tok) as [ev|] eqn:Hv.
  - right. rewrite (twitchAuthToken_invalid E s tok ev) by done. cbv zeta.
    fold (validated s tok).
    destruct (refresh_error E (validated s tok)) as [e|] eqn:He.
    + left. split; [done|]. by exists e.
    + right. split; [done|]. split; [done|].
      destruct (refresh_state_done E _ He) as (token & Hgrant & Htne & Hst).
      assert (Hc : ∃ t, t ≠ "" ∧ cached (refresh_state E (validated s tok)) = Some t).
      { rewrite Hst, cached_set_DB, store_after_lookup.
        destruct (write_error E (AccessToken token)).
        - exists tok. done.
        - by exists (AccessToken token). }
      destruct Hc as (t & Ht & Hc). exists t. split; [done|]. split; [done|].
      by rewrite (getCachedAccessToken_hit _ t).
  - left. split; [done|]. by apply twitchAuthToken_pass.
Qed.

Lemma twitchAuthToken_result_shape_aux (E : Env) (s : State) :
  (∃ e, (twitchAuthToken E s).1 = Returns ("", Some e))
  ∨ ∃ t, (twitchAuthToken E s).1 = Returns (t, nil_error).
Proof.
  destruct (twitchAuthToken_cases E s)
    as [[_ Hrun]|(tok & Htok & Hne & [[_ Hrun]|[(_ & e & _ & Hrun)|(_ & _ & t & Ht & Hc & Hrun)]])];
    rewrite Hrun; cbn [fst].
  - left. by eexists.
  - right. by exists tok.
  - left. by exists e.
  - right. by exists t.
Qed.

(** X8.  Whenever [twitchAuthToken] returns, its result is of one of two
    kinds: an error with the empty token, or no error with a non-empty
    token, which is then the token the cache holds. *)
Theorem twitchAuthToken_result_shape (E : Env) (s : State) (t : string)
    (err : error) :
  (twitchAuthToken E s).1 = Returns (t, err) →
  (t = "" ∧ err ≠ None)
  ∨ (err = None ∧ t ≠ "" ∧ cached (twitchAuthToken E s).2 = Some t).
Proof.
  destruct (twitchAuthToken_cases E s)
    as [[_ Hrun]|(tok & Htok & Hne & [[_ Hrun]|[(_ & e & _ & Hrun)|(_ & _ & t' & Ht & Hc & Hrun)]])];
    rewrite Hrun; cbn [fst snd]; intros [= <- <-].
  - by left.
  - right. done.
  - by left.
  - right. done.
Qed.

Lemma twitchAuthToken_result_shape_witness :
  ("tok1" = "" ∧ nil_error ≠ None)
  ∨ (nil_error = None ∧ "tok1" ≠ ""
     ∧ cached (twitchAuthToken E_valid s_tok1).2 = Some "tok1").
Proof.
  apply (twitchAuthToken_result_shape E_valid s_tok1 "tok1" nil_error).
  reflexivity.
Defined.

(** X9.  The calls of one [twitchAuthToken] have one of four shapes: a
    read; a read, the validation and a read; a read, the validation and a
    grant; or a read, the validation, a grant, a write and a read.  So
    there is never more than one grant, and a write only after a grant. *)
Theorem twitchAuthToken_trace (E : Env) (s : State) :
  ∃ ks, calls (twitchAuthToken E s).2 = calls s ++ ks
        ∧ token_trace (string_of_bytes (cached s)) (grant_config s) ks
        ∧ (refresh_count ks ≤ 1)%nat.
Proof.
  destruct (twitchAuthToken_cases E s)
    as [[_ Hrun]|(tok & Htok & Hne & [[_ Hrun]|[(_ & e & He & Hrun)|(_ & He & t & Ht & Hc & Hrun)]])];
    rewrite Hrun; cbn [snd]; try rewrite Htok; cbn [string_of_bytes default].
  - exists [CallView]. split; [done|]. split; [by left|simpl; lia].
  - eexists. split; [|split; [right; by left|simpl; lia]].
    simpl. by rewrite <- !app_assoc.
  - destruct (refresh_state_failed E _ e He) as (_ & _ & Hcalls).
    eexists. split; [|split; [right; right; by left|simpl; lia]].
    rewrite Hcalls. simpl. by rewrite <- !app_assoc.
  - destruct (refresh_state_done E _ He) as (token & _ & _ & Hst).
    eexists. split; [|split; [right; right; by right|simpl; lia]].
    rewrite Hst. simpl. by rewrite <- !app_assoc.
Qed.

(** X10.  When the cached token fails validation and the grant fails, the
    error of the grant comes back as it is with the empty token; the store
    is unchanged and the calls stop at the grant. *)
Theorem twitchAuthToken_grant_failure (E : Env) (s : State) (tok : string)
    (e : error_value) :
  cached s = Some tok → tok ≠ "" → validation_result E tok ≠ None →
  oauth2_Token E (grant_config s) = Failure e →
  (twitchAuthToken E s).1 = Returns ("", Some e)
  ∧ c (twitchAuthToken E s).2 = c s
  ∧ calls (twitchAuthToken E s).2
    = calls s ++ [CallView; CallHTTP (validate_request tok);
                  CallToken (grant_config s)].
Proof.
  intros Htok Hne Hv Hgrant.
  destruct (validation_result E tok) as [ev|] eqn:Hve; [clear Hv|done].
  rewrite (twitchAuthToken_invalid E s tok ev) by done. cbv zeta.
  unfold refresh_error, refresh_state.
  change (grant_config (add_call _ (add_call _ s))) with (grant_config s).
  rewrite Hgrant. cbn [fst snd]. split; [done|]. split; [done|].
  simpl. by rewrite <- !app_assoc.
Qed.

Lemma twitchAuthToken_grant_failure_witness :
  (twitchAuthToken (with_grant (Failure grantDown) E_expired) s_tok1).1
  = Returns ("", Some grantDown)
  ∧ c (twitchAuthToken (with_grant (Failure grantDown) E_expired) s_tok1).2
    = c s_tok1
  ∧ calls (twitchAuthToken (with_grant (Failure grantDown) E_expired) s_tok1).2
    = calls s_tok1 ++ [CallView; CallHTTP (validate_request "tok1");
                       CallToken (grant_config s_tok1)].
Proof.
  apply (twitchAuthToken_grant_failure
           (with_grant (Failure grantDown) E_expired) s_tok1 "tok1" grantDown);
    [reflexivity | done | done | reflexivity].
Defined.

(** X11.  When the cached token fails validation, the grant answers a
    non-empty token and the store's write transaction fails,
    [twitchAuthToken] returns the old token, the one that has just failed
    validation, and no error; the cache still holds it. *)
Theorem twitchAuthToken_stale_after_failed_write (E : Env) (s : State)
    (tok : string) (token : Token) (e : error_value) :
  cached s = Some tok → tok ≠ "" → validation_result E tok ≠ None →
  oauth2_Token E (grant_config s) = Answer token → AccessToken token ≠ "" →
  write_error E (AccessToken token) = Some e →
  (twitchAuthToken E s).1 = Returns (tok, nil_error)
  ∧ cached (twitchAuthToken E s).2 = Some tok.
Proof.
  intros Htok Hne Hv Hgrant Htne Hw.
  destruct (validation_result E tok) as [ev|] eqn:Hve; [clear Hv|done].
  rewrite (twitchAuthToken_invalid E s tok ev) by done. cbv zeta.
  set (s1 := add_call (CallHTTP (validate_request tok)) (add_call CallView s)).
  assert (Herr : refresh_error E s1 = None).
  { unfold refresh_error. change (grant_config s1) with (grant_config s).
    rewrite Hgrant. by destruct (decide (AccessToken token = "")). }
  assert (Hc : cached (refresh_state E s1) = Some tok).
  { unfold refresh_state. change (grant_config s1) with (grant_config s).
    rewrite Hgrant. destruct (decide (AccessToken token = "")); [done|].
    rewrite cached_set_DB, store_after_lookup, Hw. exact Htok. }
  rewrite Herr. cbn [fst snd].
  by rewrite (getCachedAccessToken_hit _ tok).
Qed.

Lemma twitchAuthToken_stale_after_failed_write_witness :
  (twitchAuthToken (sample_env 401 (Some diskFull) []) s_tok1).1
  = Returns ("tok1", nil_error)
  ∧ cached (twitchAuthToken (sample_env 401 (Some diskFull) []) s_tok1).2
    = Some "tok1".
Proof.
  apply (twitchAuthToken_stale_after_failed_write
           (sample_env 401 (Some diskFull) []) s_tok1 "tok1"
           {| AccessToken := "tok2" |} diskFull);
    [reflexivity | done | done | reflexivity | done | reflexivity].
Defined.

(** X12.  After a refresh that stored a new token, the next
    [twitchAuthToken] validates the new token and, when it is valid,
    returns it without a further grant or write: its calls are a read, the
    validation of the new token and a read, and the controller stays as the
    refresh left it. *)
Theorem twitchAuthToken_after_refresh (E : Env) (s : State) (tok T : string) :
  cached s = Some tok → tok ≠ "" → validation_result E tok ≠ None →
  oauth2_Token E (grant_config s) = Answer {| AccessToken := T |} →
  T ≠ "" → write_commits E T → validation_result E T = None →
  (twitchAuthToken E (twitchAuthToken E s).2).1 = Returns (T, nil_error)
  ∧ c (twitchAuthToken E (twitchAuthToken E s).2).2 = c (twitchAuthToken E s).2
  ∧ calls (twitchAuthToken E (twitchAuthToken E s).2).2
    = calls (twitchAuthToken E s).2
      ++ [CallView; CallHTTP (validate_request T); CallView].
Proof.
  intros Htok Hne Hv Hgrant HT Hw HvT.
  assert (Hc : cached (twitchAuthToken E s).2 = Some T).
  { destruct (validation_result E tok) as [ev|] eqn:Hve; [clear Hv|done].
    rewrite (twitchAuthToken_invalid E s tok ev) by done. cbv zeta.
    fold (validated s tok).
    destruct (refresh_error E (validated s tok)) as [e|] eqn:He.
    - exfalso. revert He. unfold refresh_error.
      change (grant_config (validated s tok)) with (grant_config s).
      rewrite Hgrant. cbn [AccessToken]. by destruct (decide (T = "")).
    - cbn [snd]. rewrite cached_add_call.
      destruct (refresh_state_done E _ He) as (token & Hg & _ & Hst).
      change (grant_config (validated s tok)) with (grant_config s) in Hg.
      rewrite Hgrant in Hg. injection Hg as <-. cbn [AccessToken] in Hst.
      rewrite Hst, cached_set_DB, store_after_lookup.
      unfold write_commits in Hw. by rewrite Hw. }
  rewrite (twitchAuthToken_pass E _ T) by done. cbn [fst snd].
  split; [done|]. split; [done|]. simpl. by rewrite <- !app_assoc.
Qed.

Lemma twitchAuthToken_after_refresh_witness :
  (twitchAuthToken (with_tok1_expired E_valid)
     (twitchAuthToken (with_tok1_expired E_valid) s_tok1).2).1
  = Returns ("tok2", nil_error)
  ∧ c (twitchAuthToken (with_tok1_expired E_valid)
         (twitchAuthToken (with_tok1_expired E_valid) s_tok1).2).2
    = c (twitchAuthToken (with_tok1_expired E_valid) s_tok1).2
  ∧ calls (twitchAuthToken (with_tok1_expired E_valid)
             (twitchAuthToken (with_tok1_expired E_valid) s_tok1).2).2
    = calls (twitchAuthToken (with_tok1_expired E_valid) s_tok1).2
      ++ [CallView; CallHTTP (validate_request "tok2"); CallView].
Proof.
  apply (twitchAuthToken_after_refresh (with_tok1_expired E_valid) s_tok1
           "tok1" "tok2");
    [reflexivity | done | done | reflexivity | done | reflexivity | reflexivity].
Defined.

(** ** The stream query (lines 149-209) *)

Lemma add_logs_nil (s : State) : add_logs [] s = s.
Proof. destruct s as [ctl ks ls]. unfold add_logs. simpl. by rewrite app_nil_r. Qed.

Lemma add_logs_add_log (s : State) (l : Level) (m : string)
    (ls : list (Level * string)) :
  add_logs ls (add_log l m s) = add_logs ((l, m) :: ls) s.
Proof. unfold add_logs, add_log. simpl. by rewrite <- app_assoc. Qed.

Lemma for_range_log_lines (l : list StreamData) (msg : StreamData → string)
    (s : State) :
  for_range l (λ d, log_Debug (msg d)) s
  = (Returns tt, add_logs (map (λ d, (DebugLevel, msg d)) l) s).
Proof.
  revert s. induction l as [|d l IH]; intros s.
  - simpl. by rewrite add_logs_nil.
  - cbn [for_range map].
    erewrite bind_run; [|reflexivity]. rewrite IH. by rewrite add_logs_add_log.
Qed.

Lemma getStreams_token_error (E : Env) (s s1 : State) (t : string)
    (e : error_value) :
  TwitchClientID (Config (c s)) ≠ defaultClientID →
  TwitchClientSecret (Config (c s)) ≠ defaultClientSecret →
  twitchAuthToken E s = (Returns (t, Some e), s1) →
  getStreams E s = (Returns ([], Some e), s1).
Proof.
  intros Hid Hsecret Htok. unfold getStreams.
  destruct (validateClientCredentials_run s) as (err & Hrun & Hcases).
  erewrite bind_run; [|exact Hrun].
  destruct Hcases as [[_ ?]|[(_ & _ & ?)|(-> & _ & _)]]; [done|done|].
  cbv beta iota. erewrite bind_run; [|exact Htok]. reflexivity.
Qed.

Lemma getStreams_registry_failure (E : Env) (s s1 : State) (tok : string)
    (publishers : list Publisher) (e : error_value) :
  TwitchClientID (Config (c s)) ≠ defaultClientID →
  TwitchClientSecret (Config (c s)) ≠ defaultClientSecret →
  twitchAuthToken E s = (Returns (tok, nil_error), s1) →
  registry E = (publishers, Some e) →
  getStreams E s = (Returns ([], Some e), add_call CallGetAllPublisher s1).
Proof.
  intros Hid Hsecret Htok Hreg. unfold getStreams.
  destruct (validateClientCredentials_run s) as (err & Hrun & Hcases).
  erewrite bind_run; [|exact Hrun].
  destruct Hcases as [[_ ?]|[(_ & _ & ?)|(-> & _ & _)]]; [done|done|].
  cbv beta iota. erewrite bind_run; [|exact Htok]. cbv beta iota.
  erewrite bind_run; [|reflexivity]. by rewrite Hreg.
Qed.

(** The run of [getStreams] past the registry, with the state it leaves. *)
Lemma getStreams_run_exact (E : Env) (s s1 : State) (tok : string)
    (publishers : list Publisher) :
  TwitchClientID (Config (c s)) ≠ defaultClientID →
  TwitchClientSecret (Config (c s)) ≠ defaultClientSecret →
  twitchAuthToken E s = (Returns (tok, nil_error), s1) →
  registry E = (publishers, nil_error) →
  url_Parse ("https://api.twitch.tv/helix/streams/?" +:+ userQuery_loop publishers)
  = nil_error →
  getStreams E s
  = let req := streams_request s1 tok (userQuery_loop publishers) in
    let s2 := add_call (CallHTTP req) (add_call CallGetAllPublisher s1) in
    match http_Do E req with
    | Failure e => (Returns ([], Some e), s2)
    | Answer resp =>
        match json_Decode E (Body resp) with
        | Failure e => (Returns ([], Some e), s2)
        | Answer streamResponse =>
            (Returns (Data streamResponse, nil_error),
             add_logs (stream_log_lines (Data streamResponse)) s2)
        end
    end.
Proof.
  intros Hid Hsecret Htok Hreg Hurl. cbv zeta.
  set (req := streams_request s1 tok (userQuery_loop publishers)).
  set (s2 := add_call (CallHTTP req) (add_call CallGetAllPublisher s1)).
  unfold getStreams.
  destruct (validateClientCredentials_run s) as (err & Hrun & Hcases).
  erewrite bind_run; [|exact Hrun].
  destruct Hcases as [[_ ?]|[(_ & _ & ?)|(-> & _ & _)]]; [done|done|].
  cbv beta iota.
  erewrite bind_run; [|exact Htok]. cbv beta iota.
  erewrite bind_run; [|reflexivity]. rewrite Hreg. cbv beta iota zeta.
  unfold http_NewRequest. rewrite Hurl.
  do 5 (erewrite bind_run; [|reflexivity]).
  erewrite bind_run; [|reflexivity]. cbn [c add_call].
  match goal with
  | |- context [http_Do E ?r] => change r with req
  end.
  match goal with
  | |- context [add_call (CallHTTP req) ?s0] => change (add_call (CallHTTP req) s0) with s2
  end.
  destruct (http_Do E req) as [resp|e]; [|done].
  destruct (json_Decode E (Body resp)) as [streamResponse|e]; [|done].
  unfold stream_log_lines.
  destruct (decide (length (Data streamResponse) = 0%nat)) as [Hlen|Hlen].
  - erewrite bind_run; [|reflexivity].
    erewrite bind_run; [|apply for_range_log_lines].
    by rewrite add_logs_add_log.
  - erewrite bind_run; [|reflexivity].
    erewrite bind_run; [|apply for_range_log_lines]. done.
Qed.

(** Every run of [getStreams]. *)
Lemma getStreams_cases (E : Env) (s : State) :
  ((TwitchClientID (Config (c s)) = defaultClientID
    ∨ TwitchClientSecret (Config (c s)) = defaultClientSecret)
   ∧ ∃ e, getStreams E s = (Returns ([], Some e), s))
  ∨ (∃ e, getStreams E s = (Returns ([], Some e), (twitchAuthToken E s).2)
          ∧ (twitchAuthToken E s).1 = Returns ("", Some e))
  ∨ ∃ tok, (twitchAuthToken E s).1 = Returns (tok, nil_error) ∧
      ((∃ e, (registry E).2 = Some e
             ∧ getStreams E s
               = (Returns ([], Some e),
                  add_call CallGetAllPublisher (twitchAuthToken E s).2))
       ∨ (∃ e, url_Parse ("https://api.twitch.tv/helix/streams/?"
                          +:+ userQuery_loop (registry E).1) = Some e
               ∧ getStreams E s
                 = (Panics nilDeref,
                    add_log ErrorLevel (Error_ e)
                      (add_call CallGetAllPublisher (twitchAuthToken E s).2)))
       ∨ (url_Parse ("https://api.twitch.tv/helix/streams/?"
                     +:+ userQuery_loop (registry E).1) = nil_error
          ∧ getStreams E s
            = let req := streams_request (twitchAuthToken E s).2 tok
                           (userQuery_loop (registry E).1) in
              let s2 := add_call (CallHTTP req)
                          (add_call CallGetAllPublisher (twitchAuthToken E s).2) in
              match http_Do E req with
              | Failure e => (Returns ([], Some e), s2)
              | Answer resp =>
                  match json_Decode E (Body resp) with
                  | Failure e => (Returns ([], Some e), s2)
                  | Answer streamResponse =>
                      (Returns (Data streamResponse, nil_error),
                       add_logs (stream_log_lines (Data streamResponse)) s2)
                  end
              end)).
Proof.
  destruct (validateClientCredentials_run s) as (err & Hrun & Hcases).
  destruct Hcases as [[-> Hid]|[(-> & Hid & Hsec)|(-> & Hid & Hsec)]].
  - left. split; [by left|]. eexists. unfold getStreams.
    erewrite bind_run; [|exact Hrun]. reflexivity.
  - left. split; [by right|]. eexists. unfold getStreams.
    erewrite bind_run; [|exact Hrun]. reflexivity.
  - right.
    destruct (twitchAuthToken E s) as [r s1] eqn:Htok. cbn [fst snd].
    assert (Hshape : (∃ e, r = Returns ("", Some e))
                     ∨ ∃ t, r = Returns (t, nil_error)).
    { pose proof (twitchAuthToken_result_shape_aux E s) as H.
      rewrite Htok in H. exact H. }
    destruct Hshape as [[e ->]|[tok ->]].
    + left. exists e. split; [|done]. by apply (getStreams_token_error E s s1 "").
    + right. exists tok. split; [done|].
      destruct (registry E) as [publishers [e|]] eqn:Hreg; cbn [fst snd].
      * left. exists e. split; [done|].
        by apply (getStreams_registry_failure E s s1 tok publishers).
      * right.
        destruct (url_Parse ("https://api.twitch.tv/helix/streams/?"
                             +:+ userQuery_loop publishers)) as [e|] eqn:Hurl.
        -- left. exists e. split; [done|].
           by apply (getStreams_bad_url E s s1 tok publishers).
        -- right. split; [done|].
           by apply (getStreams_run_exact E s s1 tok publishers).
Qed.

Lemma other_keys_kept_same (s s' : State) : c s' = c s → other_keys_kept s s'.
Proof. intros H. unfold other_keys_kept. by rewrite H. Qed.

Lemma other_keys_kept_from (s0 s s' : State) :
  c s0 = c s → other_keys_kept s0 s' → other_keys_kept s s'.
Proof. intros H. unfold other_keys_kept. by rewrite H. Qed.

Lemma other_keys_kept_store_after (E : Env) (t : string) (s s' : State) :
  Config (c s') = Config (c s) → DB (c s') = store_after E t (DB (c s)) →
  other_keys_kept s s'.
Proof.
  intros Hcfg Hdb. split; [done|]. intros k Hk. rewrite Hdb. unfold store_after.
  destruct (write_error E t); [done|]. by apply lookup_insert_ne.
Qed.

Lemma updateCachedAccessToken_keeps (E : Env) (s : State) (t : string) :
  other_keys_kept s (updateCachedAccessToken E t s).2.
Proof.
  destruct (decide (t = "")) as [->|Hne]; [by apply other_keys_kept_same|].
  rewrite updateCachedAccessToken_run by done.
  by apply (other_keys_kept_store_after E t).
Qed.

Lemma refresh_state_keeps (E : Env) (s : State) :
  other_keys_kept s (refresh_state E s).
Proof.
  unfold refresh_state.
  destruct (oauth2_Token E (grant_config s)) as [token|e];
    [|by apply other_keys_kept_same].
  destruct (decide (AccessToken token = "")); [by apply other_keys_kept_same|].
  by apply (other_keys_kept_store_after E (AccessToken token)).
Qed.

Lemma twitchAuthToken_keeps (E : Env) (s : State) :
  other_keys_kept s (twitchAuthToken E s).2.
Proof.
  destruct (twitchAuthToken_cases E s)
    as [[_ Hrun]|(tok & Htok & Hne & [[_ Hrun]|[(_ & e & _ & Hrun)|(_ & _ & t & Ht & Hc & Hrun)]])];
    rewrite Hrun; cbn [snd]; try (by apply other_keys_kept_same).
  - apply (other_keys_kept_from (validated s tok)); [done|].
    apply refresh_state_keeps.
  - apply (other_keys_kept_from (validated s tok)); [done|].
    destruct (refresh_state_keeps E (validated s tok)) as [Hcfg Hkeys].
    by split.
Qed.

Lemma getStreams_controller (E : Env) (s : State) :
  c (getStreams E s).2 = c s ∨ c (getStreams E s).2 = c (twitchAuthToken E s).2.
Proof.
  destruct (getStreams_cases E s)
    as [[_ [e Hrun]]|[(e & Hrun & _)|(tok & Htok & [(e & _ & Hrun)|[(e & _ & Hrun)|[_ Hrun]]])]];
    rewrite Hrun; cbv zeta; [by left|by right|by right|by right|].
  right.
  destruct (http_Do E _) as [resp|e]; [|done].
  by destruct (json_Decode E (Body resp)).
Qed.

(** X13.  No function of twitch.go changes the configuration or any key of
    the bucket other than the token key, whatever the store and the network
    answer. *)
Theorem twitch_operations_keep_other_keys (E : Env) (s : State) :
  other_keys_kept s (getCachedAccessToken s).2
  ∧ (∀ t, other_keys_kept s (updateCachedAccessToken E t s).2)
  ∧ (∀ t, other_keys_kept s (validateAccessToken E t s).2)
  ∧ other_keys_kept s (getNewAuthToken E s).2
  ∧ other_keys_kept s (twitchAuthToken E s).2
  ∧ other_keys_kept s (getStreams E s).2.
Proof.
  split; [|split; [|split; [|split; [|split]]]].
  - rewrite getCachedAccessToken_state. by apply other_keys_kept_same.
  - intros t. apply updateCachedAccessToken_keeps.
  - intros t. rewrite validateAccessToken_run. by apply other_keys_kept_same.
  - rewrite getNewAuthToken_run. apply refresh_state_keeps.
  - apply twitchAuthToken_keeps.
  - destruct (getStreams_controller E s) as [H|H].
    + by apply other_keys_kept_same.
    + pose proof (twitchAuthToken_keeps E s) as Hk.
      unfold other_keys_kept in *. by rewrite H.
Qed.

(** X14.  With configured credentials, an error of [twitchAuthToken] is
    what [getStreams] returns, with the empty list, and [getStreams] stops
    there: the registry is not asked and no streams request is sent. *)
Theorem getStreams_token_failure (E : Env) (s : State) (t : string)
    (e : error_value) :
  TwitchClientID (Config (c s)) ≠ defaultClientID →
  TwitchClientSecret (Config (c s)) ≠ defaultClientSecret →
  (twitchAuthToken E s).1 = Returns (t, Some e) →
  getStreams E s = (Returns ([], Some e), (twitchAuthToken E s).2).
Proof.
  intros Hid Hsec Htok. apply (getStreams_token_error E s _ t); [done|done|].
  rewrite <- Htok. by destruct (twitchAuthToken E s).
Qed.

Lemma getStreams_token_failure_witness :
  getStreams E_valid s_cold
  = (Returns ([], errTokenNotFound), (twitchAuthToken E_valid s_cold).2).
Proof.
  apply (getStreams_token_failure E_valid s_cold ""
           (errorString "cached twitch access token not found in db"));
    [done | done | reflexivity].
Defined.

(** X15.  With configured credentials and a token, an error of the
    publisher registry is what [getStreams] returns, with the empty list;
    the registry call is the last call: no streams request is sent. *)
Theorem getStreams_registry_error (E : Env) (s : State) (tok : string)
    (e : error_value) :
  TwitchClientID (Config (c s)) ≠ defaultClientID →
  TwitchClientSecret (Config (c s)) ≠ defaultClientSecret →
  (twitchAuthToken E s).1 = Returns (tok, nil_error) →
  (registry E).2 = Some e →
  (getStreams E s).1 = Returns ([], Some e)
  ∧ calls (getStreams E s).2
    = calls (twitchAuthToken E s).2 ++ [CallGetAllPublisher].
Proof.
  intros Hid Hsec Htok Hreg.
  destruct (registry E) as [publishers err] eqn:Hr. cbn [snd] in Hreg. subst err.
  rewrite (getStreams_registry_failure E s (twitchAuthToken E s).2 tok publishers e);
    [done|done|done| |done].
  rewrite <- Htok. by destruct (twitchAuthToken E s).
Qed.

Lemma getStreams_registry_error_witness :
  (getStreams (with_registry ([], Some registryDown) E_valid) s_tok1).1
  = Returns ([], Some registryDown)
  ∧ calls (getStreams (with_registry ([], Some registryDown) E_valid) s_tok1).2
    = calls (twitchAuthToken (with_registry ([], Some registryDown) E_valid) s_tok1).2
      ++ [CallGetAllPublisher].
Proof.
  apply (getStreams_registry_error (with_registry ([], Some registryDown) E_valid)
           s_tok1 "tok1" registryDown);
    [done | done | reflexivity | reflexivity].
Defined.

Lemma userQuery_loop_terms (publishers : list Publisher) :
  userQuery_loop publishers = String.concat "&" (query_terms publishers).
Proof. unfold userQuery_loop. by rewrite userQuery_fold. Qed.

(** X16.  With configured credentials, a token and a publisher list, when
    the URL parses [getStreams] sends exactly one streams request after the
    registry call: a GET of the streams URL followed by the query of the
    selected publishers, with the configured client id and the token after
    "Bearer " in its headers.  What it returns is read off the answer: a
    transport error, a decoding error, or the decoded list in the order of
    the response; the status code of the response plays no part. *)
Theorem getStreams_sends_query (E : Env) (s s1 : State) (tok : string)
    (publishers : list Publisher) :
  TwitchClientID (Config (c s)) ≠ defaultClientID →
  TwitchClientSecret (Config (c s)) ≠ defaultClientSecret →
  twitchAuthToken E s = (Returns (tok, nil_error), s1) →
  registry E = (publishers, nil_error) →
  url_Parse ("https://api.twitch.tv/helix/streams/?" +:+ userQuery_spec publishers)
  = nil_error →
  ∃ req,
    Method req = "GET"
    ∧ URL req = "https://api.twitch.tv/helix/streams/?" +:+ userQuery_spec publishers
    ∧ Header req
      = <["Authorization" := "Bearer " +:+ tok]>
          (<["client-id" := TwitchClientID (Config (c s))]>
             (<["Content-Type" := "application/json"]> ∅))
    ∧ calls (getStreams E s).2 = calls s1 ++ [CallGetAllPublisher; CallHTTP req]
    ∧ (getStreams E s).1
      = match http_Do E req with
        | Failure e => Returns ([], Some e)
        | Answer resp =>
            match json_Decode E (Body resp) with
            | Failure e => Returns ([], Some e)
            | Answer streamResponse => Returns (Data streamResponse, nil_error)
            end
        end.
Proof.
  intros Hid Hsec Htok Hreg Hurl. unfold userQuery_spec in *.
  rewrite <- userQuery_loop_terms in *.
  exists (streams_request s1 tok (userQuery_loop publishers)).
  split; [done|]. split; [done|]. split.
  { cbn [Header streams_request].
    destruct (twitchAuthToken_keeps E s) as [Hcfg _].
    rewrite Htok in Hcfg. cbn [snd] in Hcfg. by rewrite Hcfg. }
  rewrite (getStreams_run_exact E s s1 tok publishers) by done. cbv zeta.
  destruct (http_Do E _) as [resp|e]; cbn [fst snd].
  - destruct (json_Decode E (Body resp)) as [sr|e]; cbn [fst snd];
      split; try done; simpl; by rewrite <- app_assoc.
  - split; [|done]. simpl. by rewrite <- app_assoc.
Qed.

Lemma getStreams_sends_query_witness :
  ∃ req,
    Method req = "GET"
    ∧ URL req = "https://api.twitch.tv/helix/streams/?"
                +:+ userQuery_spec [anna; bob; carl]
    ∧ Header req
      = <["Authorization" := "Bearer " +:+ "tok1"]>
          (<["client-id" := TwitchClientID (Config (c s_tok1))]>
             (<["Content-Type" := "application/json"]> ∅))
    ∧ calls (getStreams E_two_selected s_tok1).2
      = calls (twitchAuthToken E_two_selected s_tok1).2
        ++ [CallGetAllPublisher; CallHTTP req]
    ∧ (getStreams E_two_selected s_tok1).1
      = match http_Do E_two_selected req with
        | Failure e => Returns ([], Some e)
        | Answer resp =>
            match json_Decode E_two_selected (Body resp) with
            | Failure e => Returns ([], Some e)
            | Answer streamResponse => Returns (Data streamResponse, nil_error)
            end
        end.
Proof.
  apply (getStreams_sends_query E_two_selected s_tok1
           (twitchAuthToken E_two_selected s_tok1).2 "tok1" [anna; bob; carl]);
    [done | done | reflexivity | reflexivity | reflexivity].
Defined.

(** X17.  When the URL of the streams request does not parse,
    [http.NewRequest] returns no request; [getStreams] logs the error and
    then panics on the nil request at the first header it sets.  No streams
    request is sent. *)
Theorem getStreams_panics_on_bad_url (E : Env) (s s1 : State) (tok : string)
    (publishers : list Publisher) (e : error_value) :
  TwitchClientID (Config (c s)) ≠ defaultClientID →
  TwitchClientSecret (Config (c s)) ≠ defaultClientSecret →
  twitchAuthToken E s = (Returns (tok, nil_error), s1) →
  registry E = (publishers, nil_error) →
  url_Parse ("https://api.twitch.tv/helix/streams/?" +:+ userQuery_loop publishers)
  = Some e →
  (getStreams E s).1 = Panics nilDeref
  ∧ calls (getStreams E s).2 = calls s1 ++ [CallGetAllPublisher]
  ∧ logs (getStreams E s).2 = logs s1 ++ [(ErrorLevel, Error_ e)].
Proof.
  intros Hid Hsec Htok Hreg Hurl.
  by rewrite (getStreams_bad_url E s s1 tok publishers e).
Qed.

Lemma getStreams_panics_on_bad_url_witness :
  (getStreams E_newline s_tok1).1 = Panics nilDeref
  ∧ calls (getStreams E_newline s_tok1).2
    = calls (twitchAuthToken E_newline s_tok1).2 ++ [CallGetAllPublisher]
  ∧ logs (getStreams E_newline s_tok1).2
    = logs (twitchAuthToken E_newline s_tok1).2
      ++ [(ErrorLevel,
           Error_ (foreignError "net/url" "invalid control character in URL"))].
Proof.
  apply (getStreams_panics_on_bad_url E_newline s_tok1
           (twitchAuthToken E_newline s_tok1).2 "tok1" [newline_name]
           (foreignError "net/url" "invalid control character in URL"));
    [done | done | reflexivity | reflexivity | reflexivity].
Defined.

(** X18.  When the streams response decodes, [getStreams] returns the
    decoded list with no error and logs, at debug level, "no twitch streams
    currently live" for an empty list and otherwise one "Live Now:" line
    per stream with its user name, in the order of the response. *)
Theorem getStreams_logs_live_streams (E : Env) (s s1 : State) (tok : string)
    (publishers : list Publisher) (resp : Response)
    (streamResponse : TwitchStreamsResponse) :
  TwitchClientID (Config (c s)) ≠ defaultClientID →
  TwitchClientSecret (Config (c s)) ≠ defaultClientSecret →
  twitchAuthToken E s = (Returns (tok, nil_error), s1) →
  registry E = (publishers, nil_error) →
  url_Parse ("https://api.twitch.tv/helix/streams/?" +:+ userQuery_loop publishers)
  = nil_error →
  http_Do E (streams_request s1 tok (userQuery_loop publishers)) = Answer resp →
  json_Decode E (Body resp) = Answer streamResponse →
  (getStreams E s).1 = Returns (Data streamResponse, nil_error)
  ∧ logs (getStreams E s).2
    = logs s1
      ++ (if decide (Data streamResponse = [])
          then [(DebugLevel, "no twitch streams currently live")]
          else map (λ d, (DebugLevel, "Live Now:" +:+ UserName d))
                   (Data streamResponse)).
Proof.
  intros Hid Hsec Htok Hreg Hurl Hdo Hdec.
  rewrite (getStreams_run_exact E s s1 tok publishers) by done. cbv zeta.
  rewrite Hdo, Hdec. cbn [fst snd]. split; [done|].
  unfold stream_log_lines. cbn [logs add_logs add_call].
  destruct (Data streamResponse) as [|d l]; [done|].
  destruct (decide (d :: l = [])); done.
Qed.

Lemma getStreams_logs_live_streams_witness :
  (getStreams E_two_live s_tok1).1
  = Returns (Data {| Data := [stream_of "anna"; stream_of "carl"] |}, nil_error)
  ∧ logs (getStreams E_two_live s_tok1).2
    = logs (twitchAuthToken E_two_live s_tok1).2
      ++ (if decide (Data {| Data := [stream_of "anna"; stream_of "carl"] |} = [])
          then [(DebugLevel, "no twitch streams currently live")]
          else map (λ d, (DebugLevel, "Live Now:" +:+ UserName d))
                   (Data {| Data := [stream_of "anna"; stream_of "carl"] |})).
Proof.
  apply (getStreams_logs_live_streams E_two_live s_tok1
           (twitchAuthToken E_two_live s_tok1).2 "tok1" [anna; bob; carl]
           {| StatusCode := 200; Body := "{}" |}
           {| Data := [stream_of "anna"; stream_of "carl"] |});
    [done | done | reflexivity | reflexivity | reflexivity | reflexivity
    | reflexivity].
Defined.

(** X19.  Whenever [getStreams] returns an error, the list it returns with
    it is empty. *)
Theorem getStreams_error_has_no_streams (E : Env) (s : State)
    (l : list StreamData) (e : error_value) :
  (getStreams E s).1 = Returns (l, Some e) → l = [].
Proof.
  destruct (getStreams_cases E s)
    as [[_ [e' Hrun]]|[(e' & Hrun & _)|(tok & Htok & [(e' & _ & Hrun)|[(e' & _ & Hrun)|[_ Hrun]]])]];
    rewrite Hrun; cbv zeta; cbn [fst]; try (intros [= <- _]; done); try done.
  destruct (http_Do E _) as [resp|e']; cbn [fst]; [|by intros [= <- _]].
  destruct (json_Decode E (Body resp)); cbn [fst]; [done|by intros [= <- _]].
Qed.

Lemma getStreams_error_has_no_streams_witness : @nil StreamData = [].
Proof.
  apply (getStreams_error_has_no_streams E_valid s_cold []
           (errorString "cached twitch access token not found in db")).
  reflexivity.
Defined.

(** ** The URL of the streams request *)

Lemma plain_append (s1 s2 : string) : plain (s1 +:+ s2) = plain s1 && plain s2.
Proof.
  induction s1 as [|a s1 IH]; [done|].
  rewrite append_cons. cbn [plain]. rewrite IH. by rewrite andb_assoc.
Qed.

Lemma plain_no_control_byte (s : string) :
  plain s = true → stringContainsCTLByte s = false.
Proof.
  induction s as [|a s IH]; [done|]. cbn [plain stringContainsCTLByte].
  intros H. apply andb_prop in H as [H Hs]. apply andb_prop in H as [Ha _].
  rewrite (IH Hs). by destruct (isCTL a).
Qed.

Lemma plain_no_fragment (s : string) : plain s = true → cut_fragment s = (s, "").
Proof.
  induction s as [|a s IH]; [done|]. cbn [plain cut_fragment].
  intros H. apply andb_prop in H as [H Hs]. apply andb_prop in H as [_ Ha].
  rewrite (IH Hs). by destruct (Ascii.eqb a "#").
Qed.

Lemma url_Parse_plain (rawURL : string) :
  plain rawURL = true → url_Parse rawURL = nil_error.
Proof.
  intros H. unfold url_Parse.
  by rewrite (plain_no_fragment _ H), (plain_no_control_byte _ H).
Qed.

Lemma plain_userQuery_fold (publishers : list Publisher) (userQuery : string) :
  plain userQuery = true →
  Forall (λ p, selected p → plain (Name p) = true) publishers →
  plain (fold_left userQuery_step publishers userQuery) = true.
Proof.
  intros Hq Hall. revert userQuery Hq.
  induction Hall as [|p ps Hp _ IH]; intros userQuery Hq; [done|].
  cbn [fold_left]. apply IH. unfold userQuery_step.
  destruct (decide (TwitchStream p = "")) as [|Hsel]; [done|].
  rewrite !plain_append, (Hp Hsel).
  destruct (decide (userQuery ≠ "")); [rewrite plain_append|]; by rewrite Hq.
Qed.

(** X20.  With configured credentials, once [twitchAuthToken] has
    returned a token and the registry a list in which no selected publisher
    has a control byte or a "#" in its name, the URL parses: [getStreams]
    builds the request, sends it as its last call and returns, so the panic
    on a nil request does not occur, whatever the Helix API answers. *)
Theorem getStreams_returns_on_plain_names (E : Env) (s s1 : State)
    (tok : string) (publishers : list Publisher) :
  TwitchClientID (Config (c s)) ≠ defaultClientID →
  TwitchClientSecret (Config (c s)) ≠ defaultClientSecret →
  twitchAuthToken E s = (Returns (tok, nil_error), s1) →
  registry E = (publishers, nil_error) →
  Forall (λ p, selected p → plain (Name p) = true) publishers →
  url_Parse ("https://api.twitch.tv/helix/streams/?" +:+ userQuery_loop publishers)
  = nil_error
  ∧ (∃ r, (getStreams E s).1 = Returns r)
  ∧ calls (getStreams E s).2
    = calls s1 ++ [CallGetAllPublisher;
                   CallHTTP (streams_request s1 tok (userQuery_loop publishers))].
Proof.
  intros Hid Hsec Htok Hreg Hall.
  assert (Hurl : url_Parse ("https://api.twitch.tv/helix/streams/?"
                            +:+ userQuery_loop publishers) = nil_error).
  { apply url_Parse_plain. rewrite plain_append.
    unfold userQuery_loop. by rewrite plain_userQuery_fold. }
  split; [exact Hurl|].
  rewrite (getStreams_run_exact E s s1 tok publishers) by done. cbv zeta.
  destruct (http_Do E _) as [resp|e]; cbn [fst snd].
  - destruct (json_Decode E (Body resp)) as [sr|e]; cbn [fst snd];
      (split; [by eexists|]); simpl; by rewrite <- app_assoc.
  - split; [by eexists|]. simpl. by rewrite <- app_assoc.
Qed.

Lemma getStreams_returns_on_plain_names_witness :
  url_Parse ("https://api.twitch.tv/helix/streams/?"
             +:+ userQuery_loop [anna; bob; carl]) = nil_error
  ∧ (∃ r, (getStreams E_two_selected s_tok1).1 = Returns r)
  ∧ calls (getStreams E_two_selected s_tok1).2
    = calls (twitchAuthToken E_two_selected s_tok1).2
      ++ [CallGetAllPublisher;
          CallHTTP (streams_request (twitchAuthToken E_two_selected s_tok1).2
                      "tok1" (userQuery_loop [anna; bob; carl]))].
Proof.
  apply (getStreams_returns_on_plain_names E_two_selected s_tok1
           (twitchAuthToken E_two_selected s_tok1).2 "tok1" [anna; bob; carl]);
    [done | done | reflexivity | reflexivity | repeat constructor].
Defined.

(** ** The query string (lines 169-177) *)

Lemma query_terms_head (publishers : list Publisher) (t : string)
    (ts : list string) :
  query_terms publishers = t :: ts → t ≠ "".
Proof.
  unfold query_terms.
  destruct (filter (λ p, TwitchStream p ≠ "") publishers) as [|p l]; [done|].
  cbn [map]. intros [= <- _]. done.
Qed.

Lemma concat_head_nonempty (sep t : string) (ts : list string) :
  t ≠ "" → String.concat sep (t :: ts) ≠ "".
Proof.
  intros Ht. destruct t as [|a t]; [done|].
  destruct ts as [|t' ts]; cbn [String.concat]; [done|].
  rewrite append_cons. discriminate.
Qed.

Lemma filter_none_selected (publishers : list Publisher) :
  filter (λ p, TwitchStream p ≠ "") publishers = [] →
  Forall (λ p, TwitchStream p = "") publishers.
Proof.
  induction publishers as [|p ps IH]; [done|].
  destruct (decide (TwitchStream p = "")) as [Hp|Hp].
  - rewrite filter_cons_False by (intros H; by apply H). intros H.
    constructor; [done|by apply IH].
  - by rewrite filter_cons_True.
Qed.

(** X21.  The query of a list put together from two lists is the two
    queries joined by "&", or the other one when one of them is empty: the
    loop never leaves a leading, trailing or doubled "&". *)
Theorem userQuery_loop_app (ps qs : list Publisher) :
  userQuery_loop (ps ++ qs)
  = join_queries (userQuery_loop ps) (userQuery_loop qs).
Proof.
  unfold userQuery_loop at 1. rewrite fold_left_app.
  fold (userQuery_loop ps). rewrite userQuery_fold.
  rewrite (userQuery_loop_terms qs). unfold join_queries.
  destruct (decide (userQuery_loop ps = "")) as [_|Hps]; [done|].
  destruct (query_terms qs) as [|t ts] eqn:Hterms; [done|].
  destruct (decide (String.concat "&" (t :: ts) = "")) as [Hempty|_]; [|done].
  exfalso. revert Hempty. apply concat_head_nonempty.
  by apply (query_terms_head qs t ts).
Qed.

(** X22.  The query is empty exactly when no publisher has a non-empty
    [TwitchStream]: an empty publisher name does not make the query
    empty. *)
Theorem userQuery_loop_empty_iff (publishers : list Publisher) :
  userQuery_loop publishers = ""
  ↔ Forall (λ p, TwitchStream p = "") publishers.
Proof.
  split; [|apply userQuery_loop_none_selected].
  rewrite userQuery_loop_terms. intros Hempty.
  destruct (query_terms publishers) as [|t ts] eqn:Hterms.
  - apply filter_none_selected. unfold query_terms in Hterms.
    by destruct (filter _ publishers).
  - exfalso. revert Hempty. apply concat_head_nonempty.
    by apply (query_terms_head publishers t ts).
Qed.

Example refresh_keeps_other_key :
  DB (c (twitchAuthToken E_expired s_other_key).2) !! "motd" = Some "hello"
  ∧ cached (twitchAuthToken E_expired s_other_key).2 = Some "tok2".
Proof. split; reflexivity. Qed.
